(** * Scrapify: the concurrency core of [scrapify.go]

    The engine of [scrapify.go] is a handful of goroutines that share one
    [Scraper] value: [Run] (the orchestrator), the two goroutines started
    by [getData] (the job dispatcher and the result sink), one
    [runScraper] goroutine per walked page and one anonymous goroutine
    per item URL.  This development embeds them as an executable
    interleaving semantics: every goroutine is a small program counter
    machine whose steps are the statements of the source that touch
    shared state (the wait group, the [scrapedUrls] map, the two
    unbuffered channels), and a schedule, a list of [action]s, decides
    which goroutine moves next.

    Conventions of the embedding:
    - [s.jobs] and [s.ch] are unbuffered, so a send and its receive are
      one rendezvous step; what remains of a channel is whether it has
      been closed.
    - [sync.WaitGroup] is its counter, an unbounded [Z]; [Done] below
      zero is Go's panic (negative WaitGroup counter).
    - [scrapedUrls] is the bare [map[string]bool] of the source, a
      [gmap string bool]; each read and each write is one step, nothing
      more is atomic, as no lock guards the map. (The runs below are the
      sequentially consistent ones; on top of them the Go runtime may
      abort a program that writes a map from two goroutines at once.)
    - [context.Context] is the flag [cancelled]; the extractor receives
      it with each call.  [time.Sleep] and the clock are a logical clock
      [now] in nanoseconds that the environment advances.
    - the user callback is observed through the [trace], where also
      extractor calls, launches and [Done] calls are recorded. *)

From Stdlib Require Import ZArith List String Bool Lia.
From stdpp Require Import base option list strings gmap.
Import ListNotations.

Local Open Scope Z_scope.

(** ** Data model *)

Section Engine.

Context {T : Type}.

(** [IScraper[T]]: the extractor capability.  [GetUrls ctx url] returns
    the item URLs of the page and its next pages.  [GetData ctx ch data url]
    is known to the engine only by what it pushes on [ch]: the list of
    items it sends, in order, before it returns. The [bool] is whether
    [ctx] is cancelled at the time of the call. *)
Record IScraper : Type := {
  GetUrls : bool -> string -> list string * list string;
  GetData : bool -> string -> list T
}.

(** [ScraperStrategy[T]] (field [Scraper] is [StrategyScraper] here, as the
    engine record below takes the name [Scraper]). *)
Record ScraperStrategy : Type := {
  StrategyScraper : IScraper;
  Url : string
}.

(** [ScraperJob[T]]. *)
Record ScraperJob : Type := {
  scraper : IScraper;
  urls : list string
}.

(** An unbuffered channel: open or closed. *)
Inductive chan : Type := Open | Closed.

(** [Scraper[T]]: the fields of the struct. [callback] is observed in the
    trace of the run. *)
Record Scraper : Type := mkScraper {
  strategy : list ScraperStrategy;
  jobs : chan;
  ch : chan;
  wg : Z;
  scrapedUrls : gmap string bool;
  requestDelay : Z
}.

(** [NewScraper]. *)
Definition NewScraper (s : list ScraperStrategy) (delay : Z) : Scraper :=
  {| strategy := s; jobs := Open; ch := Open; wg := 0;
     scrapedUrls := ∅; requestDelay := delay |}.

(** ** Goroutines *)

(** [Run], lines 130-149. *)
Inductive mpc : Type :=
| M_Add                                   (* 132: wg.Add(len(s.strategy)) *)
| M_GetData                               (* 135: s.getData(ctx) *)
| M_Spawn (rest : list ScraperStrategy)   (* 138-141: go s.runScraper *)
| M_Wait                                  (* 144: s.wg.Wait() *)
| M_CloseJobs                             (* 147: close(s.jobs) *)
| M_CloseCh                               (* 148: close(s.ch) *)
| M_Returned.

(** The first goroutine of [getData], lines 61-85. *)
Inductive dpc : Type :=
| D_Idle                                        (* not started *)
| D_Recv                                        (* 62: range s.jobs *)
| D_Loop (job : IScraper) (us : list string)    (* 63-77: next url, go func *)
| D_Delay (job : IScraper) (us : list string)   (* 80: if s.requestDelay > 0 *)
| D_Sleep (wake : Z) (job : IScraper) (us : list string) (* 81: time.Sleep *)
| D_Exit.

(** The second goroutine of [getData], lines 87-97. *)
Inductive spc : Type :=
| S_Idle                  (* not started *)
| S_Select                (* 88-91: select ctx.Done / default *)
| S_Loop                  (* 93: range s.ch *)
| S_Got (d : T)           (* 94: s.callback(data) *)
| S_Exit.

(** [runScraper], lines 102-126. *)
Inductive wpc : Type :=
| W_GetUrls                                        (* 106 *)
| W_Mark (us next : list string)                   (* 107 *)
| W_AddUrls (us next : list string)                (* 108 *)
| W_Add1 (us next : list string)                   (* 109 *)
| W_Send (us next : list string)                   (* 112 *)
| W_Loop (next : list string)                      (* 115-118, and 103 *)
| W_AddChild (u : string) (rest : list string)     (* 120 *)
| W_MarkChild (u : string) (rest : list string)    (* 121 *)
| W_Spawn (u : string) (rest : list string)        (* 124 *)
| W_Finished.

(** The goroutine per item URL, lines 64-77. It calls the scraper of the
    job it was launched for ([job] is the variable of one iteration of
    the loop of line 62). *)
Inductive epc : Type :=
| E_Check                 (* 68: if _, ok := s.scrapedUrls[url]; ok *)
| E_Call                  (* 74: job.scraper.GetData is entered *)
| E_Send (items : list T) (* inside GetData: items still to push on s.ch;
                             with none left the call returns and line 75
                             marks the url *)
| E_Done                  (* 65: deferred s.wg.Done() *)
| E_Finished.

Inductive task : Type :=
| TWalk (sc : IScraper) (url : string) (pc : wpc)
| TExt (sc : IScraper) (url : string) (pc : epc).

(** What a run leaves behind. [tid] is the index of the goroutine in the
    pool. *)
Inductive event : Type :=
| EvGetUrls (tid : nat) (url : string)
| EvGetData (tid : nat) (url : string)
| EvLaunch (tid : nat) (url : string) (t : Z)
| EvCallback (d : T)
| EvDone (tid : nat)
| EvCancel.

(** The running system: the shared [Scraper], the goroutines, the context,
    the clock and the trace (newest event first). [crashed] is a Go
    panic: a send on a closed channel, a close of a closed channel or a
    negative wait group counter. *)
Record Sys : Type := mkSys {
  eng : Scraper;
  mainG : mpc;
  dispG : dpc;
  sinkG : spc;
  pool : list task;
  cancelled : bool;
  now : Z;
  trace : list event;
  crashed : bool
}.

Definition boot (e : Scraper) : Sys :=
  {| eng := e; mainG := M_Add; dispG := D_Idle; sinkG := S_Idle;
     pool := []; cancelled := false; now := 0; trace := []; crashed := false |}.

(** *** Field updates *)

Definition set_wg (c : Z) (e : Scraper) : Scraper :=
  {| strategy := strategy e; jobs := jobs e; ch := ch e; wg := c;
     scrapedUrls := scrapedUrls e; requestDelay := requestDelay e |}.

Definition set_jobs (c : chan) (e : Scraper) : Scraper :=
  {| strategy := strategy e; jobs := c; ch := ch e; wg := wg e;
     scrapedUrls := scrapedUrls e; requestDelay := requestDelay e |}.

Definition set_ch (c : chan) (e : Scraper) : Scraper :=
  {| strategy := strategy e; jobs := jobs e; ch := c; wg := wg e;
     scrapedUrls := scrapedUrls e; requestDelay := requestDelay e |}.

(** [s.scrapedUrls[url] = true] *)
Definition mark (url : string) (e : Scraper) : Scraper :=
  {| strategy := strategy e; jobs := jobs e; ch := ch e; wg := wg e;
     scrapedUrls := <[url := true]> (scrapedUrls e);
     requestDelay := requestDelay e |}.

(** [_, ok := s.scrapedUrls[url]] *)
Definition scraped (url : string) (e : Scraper) : bool :=
  match scrapedUrls e !! url with Some _ => true | None => false end.

Definition with_eng (e : Scraper) (s : Sys) : Sys :=
  {| eng := e; mainG := mainG s; dispG := dispG s; sinkG := sinkG s;
     pool := pool s; cancelled := cancelled s; now := now s;
     trace := trace s; crashed := crashed s |}.

Definition with_main (m : mpc) (s : Sys) : Sys :=
  {| eng := eng s; mainG := m; dispG := dispG s; sinkG := sinkG s;
     pool := pool s; cancelled := cancelled s; now := now s;
     trace := trace s; crashed := crashed s |}.

Definition with_disp (d : dpc) (s : Sys) : Sys :=
  {| eng := eng s; mainG := mainG s; dispG := d; sinkG := sinkG s;
     pool := pool s; cancelled := cancelled s; now := now s;
     trace := trace s; crashed := crashed s |}.

Definition with_sink (k : spc) (s : Sys) : Sys :=
  {| eng := eng s; mainG := mainG s; dispG := dispG s; sinkG := k;
     pool := pool s; cancelled := cancelled s; now := now s;
     trace := trace s; crashed := crashed s |}.

Definition with_pool (p : list task) (s : Sys) : Sys :=
  {| eng := eng s; mainG := mainG s; dispG := dispG s; sinkG := sinkG s;
     pool := p; cancelled := cancelled s; now := now s;
     trace := trace s; crashed := crashed s |}.

Definition with_cancelled (b : bool) (s : Sys) : Sys :=
  {| eng := eng s; mainG := mainG s; dispG := dispG s; sinkG := sinkG s;
     pool := pool s; cancelled := b; now := now s;
     trace := trace s; crashed := crashed s |}.

Definition with_now (t : Z) (s : Sys) : Sys :=
  {| eng := eng s; mainG := mainG s; dispG := dispG s; sinkG := sinkG s;
     pool := pool s; cancelled := cancelled s; now := t;
     trace := trace s; crashed := crashed s |}.

Definition emit (ev : event) (s : Sys) : Sys :=
  {| eng := eng s; mainG := mainG s; dispG := dispG s; sinkG := sinkG s;
     pool := pool s; cancelled := cancelled s; now := now s;
     trace := ev :: trace s; crashed := crashed s |}.

Definition panic (s : Sys) : Sys :=
  {| eng := eng s; mainG := mainG s; dispG := dispG s; sinkG := sinkG s;
     pool := pool s; cancelled := cancelled s; now := now s;
     trace := trace s; crashed := true |}.

(** [go f(...)]: the new goroutine takes the next free index. *)
Definition spawn (t : task) (s : Sys) : Sys := with_pool (pool s ++ [t]) s.

Definition set_task (tid : nat) (t : task) (s : Sys) : Sys :=
  with_pool (<[tid := t]> (pool s)) s.

(** [s.wg.Add(n)] *)
Definition wg_add (n : Z) (s : Sys) : Sys :=
  with_eng (set_wg (wg (eng s) + n) (eng s)) s.

(** [s.wg.Done()] by goroutine [tid]. *)
Definition wg_done (tid : nat) (s : Sys) : Sys :=
  if wg (eng s) - 1 <? 0 then panic s
  else emit (EvDone tid) (with_eng (set_wg (wg (eng s) - 1) (eng s)) s).

(** ** Steps *)

(** [Run]. *)
Definition main_step (s : Sys) : option Sys :=
  match mainG s with
  | M_Add =>
      Some (with_main M_GetData (wg_add (Z.of_nat (length (strategy (eng s)))) s))
  | M_GetData =>
      Some (with_main (M_Spawn (strategy (eng s)))
              (with_sink S_Select (with_disp D_Recv s)))
  | M_Spawn [] => Some (with_main M_Wait s)
  | M_Spawn (st :: rest) =>
      Some (with_main (M_Spawn rest)
              (spawn (TWalk (StrategyScraper st) (Url st) W_GetUrls) s))
  | M_Wait =>
      if wg (eng s) =? 0 then Some (with_main M_CloseJobs s) else None
  | M_CloseJobs =>
      match jobs (eng s) with
      | Closed => Some (panic s)
      | Open => Some (with_main M_CloseCh (with_eng (set_jobs Closed (eng s)) s))
      end
  | M_CloseCh =>
      match ch (eng s) with
      | Closed => Some (panic s)
      | Open => Some (with_main M_Returned (with_eng (set_ch Closed (eng s)) s))
      end
  | M_Returned => None
  end.

(** The dispatcher of [getData]. The receive of a job is the sender's
    step ([W_Send] below); here [D_Recv] only sees the channel closed. *)
Definition disp_step (s : Sys) : option Sys :=
  match dispG s with
  | D_Idle => None
  | D_Recv =>
      match jobs (eng s) with
      | Closed => Some (with_disp D_Exit s)
      | Open => None
      end
  | D_Loop sc [] => Some (with_disp D_Recv s)
  | D_Loop sc (u :: rest) =>
      Some (with_disp (D_Delay sc rest)
              (emit (EvLaunch (length (pool s)) u (now s))
                 (spawn (TExt sc u E_Check) s)))
  | D_Delay sc rest =>
      if 0 <? requestDelay (eng s)
      then Some (with_disp (D_Sleep (now s + requestDelay (eng s)) sc rest) s)
      else Some (with_disp (D_Loop sc rest) s)
  | D_Sleep wake sc rest =>
      if wake <=? now s then Some (with_disp (D_Loop sc rest) s) else None
  | D_Exit => None
  end.

(** The sink of [getData]. The receive of an item is the sender's step
    ([E_Send] below). *)
Definition sink_step (s : Sys) : option Sys :=
  match sinkG s with
  | S_Idle => None
  | S_Select =>
      if cancelled s then Some (with_sink S_Exit s)
      else Some (with_sink S_Loop s)
  | S_Loop =>
      match ch (eng s) with
      | Closed => Some (with_sink S_Exit s)
      | Open => None
      end
  | S_Got d => Some (with_sink S_Loop (emit (EvCallback d) s))
  | S_Exit => None
  end.

(** [runScraper] for the page [url], goroutine [tid]. *)
Definition walk_step (tid : nat) (sc : IScraper) (url : string) (pc : wpc)
    (s : Sys) : option Sys :=
  let goto pc' := set_task tid (TWalk sc url pc') in
  match pc with
  | W_GetUrls =>
      let r := GetUrls sc (cancelled s) url in
      Some (goto (W_Mark (fst r) (snd r)) (emit (EvGetUrls tid url) s))
  | W_Mark us next =>
      Some (goto (W_AddUrls us next) (with_eng (mark url (eng s)) s))
  | W_AddUrls us next =>
      Some (goto (W_Add1 us next) (wg_add (Z.of_nat (length us)) s))
  | W_Add1 us next =>
      Some (goto (W_Send us next) (wg_add 1 s))
  | W_Send us next =>
      match jobs (eng s) with
      | Closed => Some (panic s)
      | Open =>
          match dispG s with
          | D_Recv =>
              let job := {| scraper := sc; urls := us |} in
              Some (goto (W_Loop next)
                      (with_disp (D_Loop (scraper job) (urls job)) s))
          | _ => None
          end
      end
  | W_Loop [] =>
      Some (goto W_Finished (wg_done tid s))
  | W_Loop (u :: rest) =>
      if scraped u (eng s) then Some (goto (W_Loop rest) s)
      else Some (goto (W_AddChild u rest) s)
  | W_AddChild u rest =>
      Some (goto (W_MarkChild u rest) (wg_add 1 s))
  | W_MarkChild u rest =>
      Some (goto (W_Spawn u rest) (with_eng (mark u (eng s)) s))
  | W_Spawn u rest =>
      Some (goto (W_Loop rest) (spawn (TWalk sc u W_GetUrls) s))
  | W_Finished => None
  end.

(** The goroutine of lines 64-77 for the item [url], goroutine [tid]. *)
Definition ext_step (tid : nat) (sc : IScraper) (url : string) (pc : epc)
    (s : Sys) : option Sys :=
  let goto pc' := set_task tid (TExt sc url pc') in
  match pc with
  | E_Check =>
      if scraped url (eng s) then Some (goto E_Done s)
      else Some (goto E_Call s)
  | E_Call =>
      Some (goto (E_Send (GetData sc (cancelled s) url))
              (emit (EvGetData tid url) s))
  | E_Send [] =>
      Some (goto E_Done (with_eng (mark url (eng s)) s))
  | E_Send (d :: rest) =>
      match ch (eng s) with
      | Closed => Some (panic s)
      | Open =>
          match sinkG s with
          | S_Loop => Some (goto (E_Send rest) (with_sink (S_Got d) s))
          | _ => None
          end
      end
  | E_Done => Some (goto E_Finished (wg_done tid s))
  | E_Finished => None
  end.

Definition task_step (tid : nat) (s : Sys) : option Sys :=
  match pool s !! tid with
  | Some (TWalk sc url pc) => walk_step tid sc url pc s
  | Some (TExt sc url pc) => ext_step tid sc url pc s
  | None => None
  end.

(** What the scheduler and the environment can do next. *)
Inductive action : Type :=
| AMain
| ADisp
| ASink
| ATask (tid : nat)
| ACancel            (* the caller cancels ctx *)
| ATick (dt : Z).    (* time passes *)

(** One step; [None] when the goroutine is blocked, has finished, or the
    program has crashed. *)
Definition step (s : Sys) (a : action) : option Sys :=
  if crashed s then None
  else match a with
       | AMain => main_step s
       | ADisp => disp_step s
       | ASink => sink_step s
       | ATask tid => task_step tid s
       | ACancel => Some (emit EvCancel (with_cancelled true s))
       | ATick dt => if 0 <=? dt then Some (with_now (now s + dt) s) else None
       end.

(** A schedule, run from [s]. *)
Fixpoint run (sched : list action) (s : Sys) : option Sys :=
  match sched with
  | [] => Some s
  | a :: rest =>
      match step s a with
      | Some s' => run rest s'
      | None => None
      end
  end.

End Engine.

Arguments IScraper : clear implicits.
Arguments ScraperStrategy : clear implicits.
Arguments ScraperJob : clear implicits.
Arguments Scraper : clear implicits.
Arguments Sys : clear implicits.
Arguments task : clear implicits.
Arguments event : clear implicits.
Arguments mpc : clear implicits.
Arguments dpc : clear implicits.
Arguments spc : clear implicits.
Arguments epc : clear implicits.

(** ** Accounting of the wait group

    Every goroutine and every job in transit stands for a number of units
    of the wait group counter. A walker holds its own unit from the
    moment it is announced ([Run], line 132, or its parent, line 120)
    until its deferred [Done]; after line 108 it holds one unit per item
    URL until the job is handed to the dispatcher, which holds one unit
    per URL it has not launched yet; a launched extraction holds its unit
    until its [Done]. The unit of line 109 is held by the walker and is
    never given back: no [Done] in the source answers it. *)

Section Accounting.

Context {T : Type}.
Implicit Types (s : Sys T) (p : list (task T)) (t : task T).

Definition sum_over (f : task T -> Z) p : Z :=
  foldr (fun t acc => f t + acc) 0 p.

Definition wpc_units (pc : wpc) : Z :=
  match pc with
  | W_GetUrls | W_Mark _ _ | W_AddUrls _ _ => 1
  | W_Add1 us _ => 1 + Z.of_nat (length us)
  | W_Send us _ => 2 + Z.of_nat (length us)
  | W_Loop _ | W_AddChild _ _ => 2
  | W_MarkChild _ _ | W_Spawn _ _ => 3
  | W_Finished => 1
  end.

Definition epc_units (pc : epc T) : Z :=
  match pc with
  | E_Finished => 0
  | _ => 1
  end.

Definition task_units t : Z :=
  match t with
  | TWalk _ _ pc => wpc_units pc
  | TExt _ _ pc => epc_units pc
  end.

Definition is_walk t : Z :=
  match t with
  | TWalk _ _ _ => 1
  | TExt _ _ _ => 0
  end.

Definition disp_units (d : dpc T) : Z :=
  match d with
  | D_Loop _ us | D_Delay _ us | D_Sleep _ _ us => Z.of_nat (length us)
  | _ => 0
  end.

(** Units announced by [Run] for walkers it has not started yet. *)
Definition main_units (ss : list (ScraperStrategy T)) (m : mpc T) : Z :=
  match m with
  | M_GetData => Z.of_nat (length ss)
  | M_Spawn rest => Z.of_nat (length rest)
  | _ => 0
  end.

(** Walkers [Run] still has to start. *)
Definition main_pending (ss : list (ScraperStrategy T)) (m : mpc T) : Z :=
  match m with
  | M_Add | M_GetData => Z.of_nat (length ss)
  | M_Spawn rest => Z.of_nat (length rest)
  | _ => 0
  end.

(** [Run] is past line 144. *)
Definition past_wait (m : mpc T) : bool :=
  match m with
  | M_CloseJobs | M_CloseCh | M_Returned => true
  | _ => false
  end.

Definition finished t : bool :=
  match t with
  | TWalk _ _ W_Finished | TExt _ _ E_Finished => true
  | _ => false
  end.

(** Number of [Done] calls of goroutine [tid] in a trace. *)
Fixpoint done_count (tid : nat) (tr : list (event T)) : nat :=
  match tr with
  | [] => 0
  | EvDone i :: tr' => (if Nat.eqb i tid then 1 else 0) + done_count tid tr'
  | _ :: tr' => done_count tid tr'
  end.

(** The items handed to the callback, newest first. *)
Fixpoint callbacks (tr : list (event T)) : list T :=
  match tr with
  | [] => []
  | EvCallback x :: tr' => x :: callbacks tr'
  | _ :: tr' => callbacks tr'
  end.

(** The schedule that lets the extraction [tid] push [n] items while the
    sink takes each one to the callback, and then return. *)
Definition push_all (tid : nat) (n : nat) : list action :=
  flat_map (fun _ => [ATask tid; ASink]) (seq 0 n) ++ [ATask tid; ATask tid].

Definition done_of (o : option (task T)) : nat :=
  match o with
  | Some t => if finished t then 1%nat else 0%nat
  | None => 0%nat
  end.

(** The invariant of every run of [NewScraper ss d]. *)
Record Inv (ss : list (ScraperStrategy T)) (d : Z) s : Prop := {
  inv_alive : crashed s = false;
  inv_strategy : strategy (eng s) = ss;
  inv_delay : requestDelay (eng s) = d;
  inv_units :
    wg (eng s) = main_units ss (mainG s) + disp_units (dispG s)
                 + sum_over task_units (pool s);
  inv_walkers :
    Z.of_nat (length ss) <= sum_over is_walk (pool s) + main_pending ss (mainG s);
  inv_waited : past_wait (mainG s) = true -> wg (eng s) = 0;
  inv_jobs : jobs (eng s) = Closed -> mainG s = M_CloseCh \/ mainG s = M_Returned;
  inv_ch : ch (eng s) = Closed -> mainG s = M_Returned;
  inv_idle :
    match mainG s with
    | M_Add | M_GetData => dispG s = D_Idle /\ sinkG s = S_Idle
    | _ => True
    end;
  inv_done : forall tid, done_count tid (trace s) = done_of (pool s !! tid)
}.

End Accounting.

(** ** Observations on traces *)

Section Observations.

Context {T : Type}.

(** The times at which the dispatcher launched an extraction, newest
    first. *)
Fixpoint launch_times (tr : list (event T)) : list Z :=
  match tr with
  | [] => []
  | EvLaunch _ _ t :: tr' => t :: launch_times tr'
  | _ :: tr' => launch_times tr'
  end.

(** The same in the order of the launches. *)
Definition launches (s : Sys T) : list Z := rev (launch_times (trace s)).



(** Calls of [GetUrls] and [GetData] in a trace. *)
Fixpoint extractor_calls (tr : list (event T)) : nat :=
  match tr with
  | [] => 0
  | (EvGetUrls _ _ | EvGetData _ _) :: tr' => S (extractor_calls tr')
  | _ :: tr' => extractor_calls tr'
  end.

(** Pages on which [GetUrls] was called, newest first. *)
Fixpoint walked (tr : list (event T)) : list string :=
  match tr with
  | [] => []
  | EvGetUrls _ u :: tr' => u :: walked tr'
  | _ :: tr' => walked tr'
  end.

(** Item URLs on which [GetData] was called, newest first. *)
Fixpoint extracted (tr : list (event T)) : list string :=
  match tr with
  | [] => []
  | EvGetData _ u :: tr' => u :: extracted tr'
  | _ :: tr' => extracted tr'
  end.

(** The schedule that takes the extraction [tid] from line 68 to its end:
    as a duplicate it returns at once, otherwise it enters [GetData],
    pushes [n] items and returns. *)
Definition ext_schedule (tid : nat) (dup : bool) (n : nat) : list action :=
  if dup then [ATask tid; ATask tid]
  else ATask tid :: ATask tid :: push_all tid n.

(** What the visited set holds for a goroutine: a walker past line 107
    finds its own URL there, and a walker at line 124 also the URL of the
    child it is about to start. *)
Definition task_marked (e : Scraper T) (t : task T) : bool :=
  match t with
  | TWalk _ u pc =>
      match pc with
      | W_GetUrls | W_Mark _ _ => true
      | W_Spawn c _ => scraped u e && scraped c e
      | _ => scraped u e
      end
  | TExt _ _ _ => true
  end.

Definition MarkInv (s : Sys T) : Prop :=
  Forall (fun t => task_marked (eng s) t = true) (pool s).

(** Statements of [Run] still to execute. *)
Definition main_left (m : mpc T) : nat :=
  match m with
  | M_Add => 6
  | M_GetData => 5
  | M_Spawn rest => 4 + length rest
  | M_Wait => 3
  | M_CloseJobs => 2
  | M_CloseCh => 1
  | M_Returned => 0
  end.

(** A run in which no walker was ever started. *)
Definition Quiet (s : Sys T) : Prop :=
  pool s = [] /\ wg (eng s) = 0 /\
  callbacks (trace s) = [] /\ extractor_calls (trace s) = 0%nat /\
  disp_units (dispG s) = 0 /\ (forall x, sinkG s <> S_Got x) /\
  (forall rest, mainG s = M_Spawn rest -> rest = []).

(** The channels [Run] has closed so far. *)
Definition Closing (s : Sys T) : Prop :=
  match mainG s with
  | M_CloseCh => jobs (eng s) = Closed
  | M_Returned => jobs (eng s) = Closed /\ ch (eng s) = Closed
  | _ => True
  end.

(** The state a schedule leads to ([s] itself if the schedule cannot be
    followed). *)
Definition after (sched : list action) (s : Sys T) : Sys T :=
  default s (run sched s).

End Observations.

(** ** Sites

    Extractors over a fixed site: a table from page URL to its item URLs
    and next pages; the item of a URL is the URL itself. *)

Module Sites.

Local Open Scope string_scope.

Fixpoint page_of (pages : list (string * (list string * list string)))
    (u : string) : list string * list string :=
  match pages with
  | [] => ([], [])
  | (k, v) :: r => if String.eqb k u then v else page_of r u
  end.

Definition site (pages : list (string * (list string * list string)))
    : IScraper string :=
  {| GetUrls := fun _ u => page_of pages u;
     GetData := fun _ u => [u] |}.

Definition seed (sc : IScraper string) (u : string) : ScraperStrategy string :=
  {| StrategyScraper := sc; Url := u |}.

(** A page whose next page is itself. *)
Definition selfloop : IScraper string := site [("p", ([], ["p"]))].

Definition selfloop_boot : Sys string := boot (NewScraper [seed selfloop "p"] 0).

(** [Run] up to [Wait], the sink, the walker of "p" to its end, the
    dispatcher through the empty job. *)
Definition selfloop_sched : list action :=
  [AMain; AMain; AMain; AMain; ASink] ++ repeat (ATask 0%nat) 7 ++ [ADisp].

(** Page "p1" lists a, b and has next page "p2"; "p2" lists b, c. *)
Definition two_pages : IScraper string :=
  site [("p1", (["a"; "b"], ["p2"])); ("p2", (["b"; "c"], []))].

Definition two_pages_boot : Sys string :=
  boot (NewScraper [seed two_pages "p1"] 0).

(** Goroutine 0 walks "p1", 1 and 2 extract a and b of "p1", 3 walks
    "p2", 4 and 5 extract b and c of "p2". The extraction of b from "p1"
    has passed line 68 and is inside [GetData] when the job of "p2" is
    dispatched. *)
Definition two_pages_walk : list action :=
  [AMain; AMain; AMain; AMain; ASink] ++
  repeat (ATask 0%nat) 5 ++ repeat ADisp 5 ++
  [ATask 2; ATask 2]%nat ++
  repeat (ATask 0%nat) 5 ++
  repeat (ATask 3%nat) 5 ++ repeat ADisp 5 ++ [ATask 3%nat].

(** The extraction of b from "p2" runs line 68 before the first one has
    reached line 75; then each runs to its end; a and c follow. *)
Definition two_pages_sched : list action :=
  two_pages_walk ++
  [ATask 4%nat] ++
  [ATask 2; ASink; ATask 2; ATask 2]%nat ++
  [ATask 4; ATask 4; ASink; ATask 4; ATask 4]%nat ++
  [ATask 1; ATask 1; ATask 1; ASink; ATask 1; ATask 1]%nat ++
  [ATask 5; ATask 5; ATask 5; ASink; ATask 5; ATask 5]%nat.

(** The caller cancels right after the sink has passed its [select];
    then the whole crawl of [two_pages] goes on as before. *)
Definition cancel_sched : list action :=
  [AMain; AMain; AMain; AMain; ASink; ACancel] ++ skipn 5 two_pages_sched.

(** A page that links its item b three times. *)
Definition thrice : IScraper string := site [("p", (["b"; "b"; "b"], []))].

Definition thrice_boot : Sys string := boot (NewScraper [seed thrice "p"] 0).

(** The three extractions (goroutines 1, 2, 3) are launched. *)
Definition thrice_launched : list action :=
  [AMain; AMain; AMain; AMain; ASink] ++
  repeat (ATask 0%nat) 5 ++ repeat ADisp 6.

(** Each of them runs line 68. *)
Definition thrice_claims : list action :=
  thrice_launched ++ [ATask 1; ATask 2; ATask 3]%nat.

(** Each of them goes on into [GetData]. *)
Definition thrice_sched : list action :=
  thrice_claims ++ [ATask 1; ATask 2; ATask 3]%nat.

(** A diamond: "p1" leads to "p2" and "p3", both lead to "p4". *)
Definition diamond : IScraper string :=
  site [("p1", ([], ["p2"; "p3"])); ("p2", ([], ["p4"]));
        ("p3", ([], ["p4"])); ("p4", ([], []))].

Definition diamond_boot : Sys string := boot (NewScraper [seed diamond "p1"] 0).

(** The walker of "p1" is at line 124 for "p2". *)
Definition diamond_spawning : list action :=
  [AMain; AMain; AMain; AMain; ASink] ++
  repeat (ATask 0%nat) 5 ++ [ADisp] ++ repeat (ATask 0%nat) 3.

(** Goroutine 0 walks "p1" and starts 1 on "p2" and 2 on "p3"; both reach
    line 116 for "p4" before either reaches line 121; each starts a
    walker of "p4" (3 and 4), which run to their end. *)
Definition diamond_sched : list action :=
  [AMain; AMain; AMain; AMain; ASink] ++
  repeat (ATask 0%nat) 5 ++ [ADisp] ++ repeat (ATask 0%nat) 9 ++
  repeat (ATask 1%nat) 5 ++ [ADisp] ++ repeat (ATask 2%nat) 5 ++ [ADisp] ++
  [ATask 1; ATask 2]%nat ++
  repeat (ATask 1%nat) 4 ++ repeat (ATask 2%nat) 4 ++
  repeat (ATask 3%nat) 5 ++ [ADisp] ++ [ATask 3%nat] ++
  repeat (ATask 4%nat) 5 ++ [ADisp] ++ [ATask 4%nat].

(** Two strategies with the same seed. *)
Definition one_page : IScraper string := site [("p", (["a"], []))].

Definition shared_seed_boot : Sys string :=
  boot (NewScraper [seed one_page "p"; seed one_page "p"] 0).

(** [Run] up to [Wait]. *)
Definition shared_seed_started : list action :=
  [AMain; AMain; AMain; AMain; AMain].

(** Then the first walker (goroutine 0) runs to its end before the second
    (goroutine 1) begins. *)
Definition shared_seed_sched : list action :=
  shared_seed_started ++ [ASink] ++
  repeat (ATask 0%nat) 5 ++ repeat ADisp 3 ++ [ATask 0%nat] ++
  repeat (ATask 1%nat) 5 ++ repeat ADisp 3 ++ [ATask 1%nat].

(** No strategy at all. *)
Definition empty_boot : Sys string := boot (NewScraper [] 0).

Definition empty_sched : list action := repeat AMain 6.

(** [Run] has started [getData], the sink has passed its [select], the
    caller cancels. *)
Definition empty_started : list action := [AMain; AMain; ASink; ACancel].

(** A page with two items, crawled with one second between requests. *)
Definition two_items : IScraper string := site [("p", (["a"; "b"], []))].

Definition delayed_boot : Sys string :=
  boot (NewScraper [seed two_items "p"] 1000000000).

Definition delayed_sched : list action :=
  [AMain; AMain; AMain; AMain; ASink] ++ repeat (ATask 0%nat) 5 ++
  [ADisp; ADisp; ATask 1%nat; ATick 1000000000; ADisp; ADisp; ADisp].

(** The first of the three extractions of [thrice] has run to its end. *)
Definition thrice_first_done : list action :=
  thrice_launched ++ [ATask 1; ATask 1; ATask 1; ASink; ATask 1; ATask 1]%nat.

(** Then the two others run. *)
Definition thrice_others : list action := [ATask 2; ATask 2; ATask 3; ATask 3]%nat.

(** The walker of [thrice] has handed over its job. *)
Definition thrice_job_sent : list action :=
  [AMain; AMain; AMain; AMain; ASink] ++ repeat (ATask 0%nat) 5.

(** A page that lists itself among its items. *)
Definition selfitem : IScraper string := site [("p", (["p"], []))].

Definition selfitem_boot : Sys string := boot (NewScraper [seed selfitem "p"] 0).

(** The page is walked and the extraction of its item (goroutine 1) is
    launched. *)
Definition selfitem_launched : list action :=
  [AMain; AMain; AMain; AMain; ASink] ++ repeat (ATask 0%nat) 5 ++ [ADisp].

(** One page, one strategy; the caller cancels before the sink goroutine
    has run. *)
Definition one_page_boot : Sys string := boot (NewScraper [seed one_page "p"] 0).

Definition early_cancel : list action := [AMain; AMain; ACancel].

(** Then the crawl goes on until the extraction of a (goroutine 1) is
    inside [GetData]. *)
Definition after_early_cancel : list action :=
  [AMain; AMain; ASink] ++ repeat (ATask 0%nat) 5 ++ [ADisp]
  ++ [ATask 1; ATask 1]%nat.

(** With two strategies on "p": the first walker has sent its job and the
    second stands at its send while the dispatcher is in the job. *)
Definition shared_seed_waiting : list action :=
  shared_seed_started ++ [ASink] ++
  repeat (ATask 0%nat) 5 ++ repeat (ATask 1%nat) 4.

(** The diamond before its first walker moves. *)
Definition diamond_started : list action :=
  [AMain; AMain; AMain; AMain; ASink].


(** Two strategies on "p": the first walker has run to its end, the
    second has not moved. *)
Definition shared_seed_first_done : list action :=
  shared_seed_started ++ [ASink] ++
  repeat (ATask 0%nat) 5 ++ repeat ADisp 3 ++ [ATask 0%nat].

(** A job of two items in the hands of the dispatcher while [Run] is in
    [Wait] and the sink in its loop, with no walker around: the counter
    holds the two units of line 108 and nothing else. *)
Definition job_in_hand : Sys string :=
  {| eng := set_wg 2 (NewScraper [] 0); mainG := M_Wait;
     dispG := D_Loop two_items ["a"; "b"]; sinkG := S_Loop;
     pool := []; cancelled := false; now := 0; trace := []; crashed := false |}.

(** The dispatcher launches the two extractions (goroutines 0 and 1) and
    the first is inside [GetData] with its item. *)
Definition job_running : list action :=
  repeat ADisp 5 ++ [ATask 0; ATask 0]%nat.

(** Both extractions run to their end; then [Wait] returns and [Run]
    closes the two channels; then the dispatcher and the sink see their
    channel closed and return. *)
Definition job_closed : list action :=
  job_running ++
  [ATask 0; ASink; ATask 0; ATask 0]%nat ++
  [ATask 1; ATask 1; ATask 1; ASink; ATask 1; ATask 1]%nat ++
  [AMain; AMain; AMain; ADisp; ASink].


End Sites.

(** ** The goroutines one at a time

    What each goroutine does when it is the only one to move: the
    schedules that take it through its loop and the result of the loop
    as a function of the state it starts from. *)

Section Alone.

Context {T : Type}.

(** Pages on which goroutine [tid] called [GetUrls], newest first. *)
Fixpoint walks_of (tid : nat) (tr : list (event T)) : list string :=
  match tr with
  | [] => []
  | EvGetUrls i u :: tr' =>
      if Nat.eqb i tid then u :: walks_of tid tr' else walks_of tid tr'
  | _ :: tr' => walks_of tid tr'
  end.

(** Item URLs on which goroutine [tid] called [GetData], newest first. *)
Fixpoint extracts_of (tid : nat) (tr : list (event T)) : list string :=
  match tr with
  | [] => []
  | EvGetData i u :: tr' =>
      if Nat.eqb i tid then u :: extracts_of tid tr' else extracts_of tid tr'
  | _ :: tr' => extracts_of tid tr'
  end.

(** The extractor calls a goroutine has made, by where it stands. *)
Definition calls_ok (o : option (task T)) (w e : list string) : Prop :=
  match o with
  | Some (TWalk _ u pc) =>
      e = [] /\ w = match pc with W_GetUrls => [] | _ => [u] end
  | Some (TExt _ u pc) =>
      w = [] /\
      match pc with
      | E_Check | E_Call => e = []
      | E_Send _ => e = [u]
      | E_Done | E_Finished => e = [] \/ e = [u]
      end
  | None => w = [] /\ e = []
  end.

Definition CallInv (s : Sys T) : Prop :=
  forall tid,
    calls_ok (pool s !! tid) (walks_of tid (trace s)) (extracts_of tid (trace s)).

(** An extraction that found its URL in the visited set: where it can
    stand afterwards. *)
Definition skipping (tid : nat) (sc : IScraper T) (u : string) (s : Sys T) : Prop :=
  scraped u (eng s) = true /\ extracts_of tid (trace s) = [] /\
  exists pc, pool s !! tid = Some (TExt sc u pc) /\
             (pc = E_Check \/ pc = E_Done \/ pc = E_Finished).

(** The next page a walker is about to claim or start, lines 120-124. *)
Definition claiming (pc : wpc) : option string :=
  match pc with
  | W_AddChild c _ | W_MarkChild c _ | W_Spawn c _ => Some c
  | _ => None
  end.

(** A walker never claims its own URL. *)
Definition OwnInv (s : Sys T) : Prop :=
  Forall (fun t => match t with
                   | TWalk _ u pc => claiming pc <> Some u
                   | TExt _ _ _ => True
                   end) (pool s).

(** The sink has not yet entered its loop. *)
Definition sink_before_loop (k : spc T) : bool :=
  match k with
  | S_Idle | S_Select => true
  | _ => false
  end.

(** The walkers [Run] starts, lines 138-141. *)
Definition seed_walkers (ss : list (ScraperStrategy T)) : list (task T) :=
  map (fun st => TWalk (StrategyScraper st) (Url st) W_GetUrls) ss.

(** The extractions the dispatcher launches for a job, lines 63-77. *)
Definition job_extractions (sc : IScraper T) (us : list string) : list (task T) :=
  map (fun u => TExt sc u E_Check) us.

(** The schedule on which the dispatcher goes through a job of [n] URLs:
    launch, test the delay, and with a delay [d > 0] sleep while [d]
    passes; at the end back to the receive. *)
Fixpoint drain (d : Z) (n : nat) : list action :=
  match n with
  | O => [ADisp]
  | S n' =>
      (if 0 <? d then [ADisp; ADisp; ATick d; ADisp] else [ADisp; ADisp])
      ++ drain d n'
  end.

(** Lines 115-125 run without interference: the next pages for which a
    child walker is started, ... *)
Fixpoint loop_children (m : gmap string bool) (next : list string)
    : list string :=
  match next with
  | [] => []
  | u :: rest =>
      match m !! u with
      | Some _ => loop_children m rest
      | None => u :: loop_children (<[u := true]> m) rest
      end
  end.

(** ... the visited set at the end, ... *)
Fixpoint loop_marks (m : gmap string bool) (next : list string)
    : gmap string bool :=
  match next with
  | [] => m
  | u :: rest =>
      match m !! u with
      | Some _ => loop_marks m rest
      | None => loop_marks (<[u := true]> m) rest
      end
  end.

(** ... and the number of steps of the walker, its [Done] included. *)
Fixpoint loop_steps (m : gmap string bool) (next : list string) : nat :=
  match next with
  | [] => 1
  | u :: rest =>
      match m !! u with
      | Some _ => S (loop_steps m rest)
      | None => 4 + loop_steps (<[u := true]> m) rest
      end
  end.

(** An item that [GetData] of a strategy's scraper pushes for a URL on
    which it was called in the trace. *)
Definition produced (ss : list (ScraperStrategy T)) (tr : list (event T))
    (x : T) : Prop :=
  exists st b u,
    In st ss /\ In u (extracted tr) /\ In x (GetData (StrategyScraper st) b u).

(** The scraper of the job the dispatcher is working on. *)
Definition disp_job (k : dpc T) : option (IScraper T) :=
  match k with
  | D_Loop j _ | D_Delay j _ | D_Sleep _ j _ => Some j
  | _ => None
  end.

(** Where the scraper and the pending items of a goroutine come from. *)
Definition task_prov (ss : list (ScraperStrategy T)) (tr : list (event T))
    (t : task T) : Prop :=
  match t with
  | TWalk sc _ _ => In sc (map StrategyScraper ss)
  | TExt sc u pc =>
      In sc (map StrategyScraper ss) /\
      match pc with
      | E_Send items =>
          In u (extracted tr) /\
          exists b, forall x, In x items -> In x (GetData sc b u)
      | _ => True
      end
  end.

Definition ProvInv (ss : list (ScraperStrategy T)) (s : Sys T) : Prop :=
  Forall (task_prov ss (trace s)) (pool s) /\
  (forall x, sinkG s = S_Got x -> produced ss (trace s) x) /\
  (forall x, In x (callbacks (trace s)) -> produced ss (trace s) x) /\
  (forall j, disp_job (dispG s) = Some j -> In j (map StrategyScraper ss)) /\
  (forall rest st, mainG s = M_Spawn rest -> In st rest -> In st ss).

(** The schedule on which the extractions of a job, goroutines [base],
    [base + 1], ... for the URLs [us], run one after the other, starting
    from the visited set [m]; [b] is whether the context is cancelled. *)
Fixpoint job_sched (sc : IScraper T) (b : bool) (base : nat)
    (m : gmap string bool) (us : list string) : list action :=
  match us with
  | [] => []
  | u :: rest =>
      match m !! u with
      | Some _ => ext_schedule base true 0 ++ job_sched sc b (S base) m rest
      | None =>
          ext_schedule base false (length (GetData sc b u))
          ++ job_sched sc b (S base) (<[u := true]> m) rest
      end
  end.

(** The schedule on which the dispatcher, wherever it stands in a job,
    finishes the job and comes back to its receive: only the dispatcher
    moves, and the clock while it sleeps. *)
Definition settle (d now : Z) (k : dpc T) : list action :=
  match k with
  | D_Loop _ us => drain d (length us)
  | D_Delay _ rest =>
      (if 0 <? d then [ADisp; ATick d; ADisp] else [ADisp])
      ++ drain d (length rest)
  | D_Sleep wake _ rest =>
      [ATick (Z.max 0 (wake - now)); ADisp] ++ drain d (length rest)
  | _ => []
  end.

(** Before [getData] has started the dispatcher there is no goroutine
    in the pool. *)
Definition IdleInv (s : Sys T) : Prop :=
  dispG s = D_Idle ->
  pool s = [] /\ (mainG s = M_Add \/ mainG s = M_GetData).

(** The part of [push_all] in which the items travel: the extraction
    [tid] pushes [n] items and the sink takes each one to the callback. *)
Definition deliver (tid : nat) (n : nat) : list action :=
  flat_map (fun _ => [ATask tid; ASink]) (seq 0 n).







(** How often [u] occurs in a list of URLs. *)
Definition occurrences (u : string) (l : list string) : Z :=
  foldr (fun v acc => (if String.eqb v u then 1 else 0) + acc) 0 l.

(** The number of strategies whose seed is [u]. *)
Definition seeds_on (u : string) (ss : list (ScraperStrategy T)) : Z :=
  occurrences u (map Url ss).

(** The number of calls of [GetUrls] on [u] in a trace. *)
Definition walks_on (u : string) (tr : list (event T)) : Z :=
  occurrences u (walked tr).

(** A walker of [u] that has not called [GetUrls] yet. *)
Definition at_start (u : string) (t : task T) : Z :=
  match t with
  | TWalk _ v W_GetUrls => if String.eqb v u then 1 else 0
  | _ => 0
  end.

(** The seeds on [u] whose walker [Run] has not started yet. *)
Definition pending_on (u : string) (ss : list (ScraperStrategy T))
    (m : mpc T) : Z :=
  match m with
  | M_Add | M_GetData => seeds_on u ss
  | M_Spawn rest => seeds_on u rest
  | _ => 0
  end.

(** Every strategy on [u] has its own walker: started and past
    [GetUrls], started and before it, or still to be started. *)
Definition SeedInv (u : string) (ss : list (ScraperStrategy T)) (s : Sys T)
    : Prop :=
  seeds_on u ss <=
  walks_on u (trace s) + sum_over (at_start u) (pool s)
  + pending_on u ss (mainG s).

End Alone.

(** * Proofs *)

Section AccountingFacts.

Context {T : Type}.
Implicit Types (s : Sys T) (p : list (task T)) (t : task T).

Lemma sum_over_app (f : task T -> Z) p q :
  sum_over f (p ++ q) = sum_over f p + sum_over f q.
Proof.
  induction p as [|t p IH]; simpl; [lia|]. rewrite IH. lia.
Qed.

Lemma sum_over_snoc (f : task T -> Z) p t :
  sum_over f (p ++ [t]) = sum_over f p + f t.
Proof. rewrite sum_over_app. simpl. lia. Qed.

Lemma sum_over_insert (f : task T -> Z) p i t t' :
  p !! i = Some t ->
  sum_over f (<[i := t']> p) = sum_over f p - f t + f t'.
Proof.
  revert i. induction p as [|x p IH]; intros [|i] H; simpl in *; try done.
  - injection H as ->. lia.
  - rewrite (IH i H). lia.
Qed.

Lemma sum_over_nonneg (f : task T -> Z) p :
  (forall t, 0 <= f t) -> 0 <= sum_over f p.
Proof.
  intros Hf. induction p as [|x p IH]; simpl; [lia|]. specialize (Hf x). lia.
Qed.

Lemma sum_over_lookup (f : task T -> Z) p i t :
  (forall t, 0 <= f t) -> p !! i = Some t -> f t <= sum_over f p.
Proof.
  intros Hf. revert i. induction p as [|x p IH]; intros [|i] H; simpl in *; try done.
  - injection H as ->. pose proof (sum_over_nonneg f p Hf). lia.
  - specialize (IH i H). specialize (Hf x). lia.
Qed.

Lemma task_units_nonneg t : 0 <= task_units t.
Proof. destruct t as [? ? []|? ? []]; simpl; lia. Qed.

Lemma is_walk_nonneg t : 0 <= is_walk t.
Proof. destruct t; simpl; lia. Qed.

Lemma is_walk_le_units t : is_walk t <= task_units t.
Proof. destruct t as [? ? []|? ? []]; simpl; lia. Qed.

Lemma walkers_le_units p : sum_over is_walk p <= sum_over task_units p.
Proof.
  induction p as [|t p IH]; simpl; [lia|].
  pose proof (is_walk_le_units t). lia.
Qed.

Lemma disp_units_nonneg (d : dpc T) : 0 <= disp_units d.
Proof. destruct d; simpl; lia. Qed.

Lemma main_units_nonneg (ss : list (ScraperStrategy T)) (m : mpc T) : 0 <= main_units ss m.
Proof. destruct m; simpl; lia. Qed.

Lemma lookup_snoc_new p t : (p ++ [t]) !! length p = Some t.
Proof. rewrite lookup_app_r; [|lia]. by rewrite Nat.sub_diag. Qed.

Lemma lookup_snoc_cases p t i :
  (p ++ [t]) !! i = match p !! i with
                    | Some x => Some x
                    | None => if Nat.eqb i (length p) then Some t else None
                    end.
Proof.
  destruct (p !! i) as [x|] eqn:E.
  - by rewrite (lookup_app_l_Some _ _ _ _ E).
  - apply lookup_ge_None in E.
    destruct (Nat.eqb_spec i (length p)) as [->|Hne].
    + apply lookup_snoc_new.
    + apply lookup_ge_None. rewrite length_app. simpl. lia.
Qed.

Lemma lookup_insert_cases p i j t t' :
  p !! i = Some t ->
  <[i := t']> p !! j = if Nat.eqb j i then Some t' else p !! j.
Proof.
  intros H. destruct (Nat.eqb_spec j i) as [->|Hne].
  - apply list_lookup_insert_eq. by eapply lookup_lt_Some.
  - by apply list_lookup_insert_ne.
Qed.

Lemma done_of_snoc p t i :
  finished t = false -> done_of ((p ++ [t]) !! i) = done_of (p !! i).
Proof.
  intros Hf. rewrite lookup_snoc_cases.
  destruct (p !! i) eqn:E; [done|].
  destruct (Nat.eqb i (length p)); simpl; by rewrite ?Hf.
Qed.

Lemma done_of_insert_same p i j t t' :
  p !! i = Some t -> finished t' = finished t ->
  done_of (<[i := t']> p !! j) = done_of (p !! j).
Proof.
  intros H Hf. rewrite (lookup_insert_cases _ _ _ _ _ H).
  destruct (Nat.eqb_spec j i) as [->|]; [|done].
  rewrite H. simpl. by rewrite Hf.
Qed.

Lemma done_of_insert_fin p i j t t' :
  p !! i = Some t -> finished t = false -> finished t' = true ->
  done_of (<[i := t']> p !! j) =
  ((if Nat.eqb i j then 1 else 0) + done_of (p !! j))%nat.
Proof.
  intros H Hf Hf'. rewrite (lookup_insert_cases _ _ _ _ _ H).
  rewrite (Nat.eqb_sym i j).
  destruct (Nat.eqb_spec j i) as [->|]; [|done].
  rewrite H. simpl. by rewrite Hf, Hf'.
Qed.

Lemma boot_inv (ss : list (ScraperStrategy T)) d : Inv ss d (boot (NewScraper ss d)).
Proof.
  split; simpl; try done; try lia.
Qed.

End AccountingFacts.

(** Closes the side conditions on the program counter of [Run]. *)
Ltac pc_side :=
  intros;
  repeat match goal with
         | H : ?P -> _, H' : ?P |- _ => specialize (H H')
         | H : ?x = ?x -> _ |- _ => specialize (H eq_refl)
         | H : _ /\ _ |- _ => destruct H
         | H : _ \/ _ |- _ => destruct H
         end;
  simplify_eq; simpl in *; try done; try lia; try congruence; auto.

Section Preservation.

Context {T : Type}.
Implicit Types (s : Sys T) (p : list (task T)) (t : task T).
Variable ss : list (ScraperStrategy T).
Variable d : Z.

Lemma units_le_wg s tid t :
  Inv ss d s -> pool s !! tid = Some t -> task_units t <= wg (eng s).
Proof.
  intros I H. rewrite (inv_units _ _ _ I).
  pose proof (sum_over_lookup task_units _ _ _ task_units_nonneg H).
  pose proof (main_units_nonneg ss (mainG s)).
  pose proof (disp_units_nonneg (dispG s)). lia.
Qed.

Lemma walkers_le_wg s :
  Inv ss d s -> sum_over is_walk (pool s) <= wg (eng s).
Proof.
  intros I. rewrite (inv_units _ _ _ I).
  pose proof (walkers_le_units (pool s)).
  pose proof (main_units_nonneg ss (mainG s)).
  pose proof (disp_units_nonneg (dispG s)). lia.
Qed.

(** Once [Wait] has returned nothing is left: no walker, no unfinished
    extraction, no URL to dispatch. *)
Lemma waited_quiet s tid t :
  Inv ss d s -> past_wait (mainG s) = true -> pool s !! tid = Some t ->
  task_units t = 0.
Proof.
  intros I Hw H. pose proof (units_le_wg s tid t I H).
  rewrite (inv_waited _ _ _ I Hw) in *. pose proof (task_units_nonneg t). lia.
Qed.

Lemma main_step_inv s s' :
  Inv ss d s -> main_step s = Some s' -> Inv ss d s'.
Proof.
  intros I H. pose proof (walkers_le_wg s I) as Hw. destruct I.
  unfold main_step in H.
  destruct (mainG s) as [| |[|st rest]| | | |] eqn:Em; simpl in *;
    repeat case_match; simplify_eq.
  all: split; simpl; rewrite ?Em; simpl; try done; try lia.
  all: rewrite ?sum_over_snoc; simpl; try lia.
  all: try (solve [pc_side]).
  all: try (intros i; rewrite done_of_snoc by done; apply inv_done0).
  destruct inv_idle0 as [Hd _]. rewrite Hd in inv_units0. simpl in *. lia.
Qed.

Lemma disp_step_inv s s' :
  Inv ss d s -> disp_step s = Some s' -> Inv ss d s'.
Proof.
  intros I H. unfold disp_step in H.
  destruct (dispG s) as [| |sc [|u rest]|sc rest|wake sc rest|] eqn:Ed;
    simpl in *; repeat case_match; simplify_eq.
  all: destruct I; rewrite Ed in *.
  all: split; simpl; try done; try lia.
  all: rewrite ?sum_over_snoc; simpl in *; try lia.
  all: try (solve [destruct (mainG s); pc_side]).
  all: try (intros i; rewrite done_of_snoc by done; apply inv_done0).
Qed.

Lemma sink_step_inv s s' :
  Inv ss d s -> sink_step s = Some s' -> Inv ss d s'.
Proof.
  intros I H. unfold sink_step in H.
  destruct (sinkG s) eqn:Es; simpl in *; repeat case_match; simplify_eq.
  all: destruct I; rewrite Es in *.
  all: split; simpl; try done; try lia.
  all: try (solve [destruct (mainG s); pc_side]).
Qed.

Lemma no_panic_jobs s :
  Inv ss d s -> past_wait (mainG s) = false -> jobs (eng s) = Open.
Proof.
  intros I Hw. destruct (jobs (eng s)) eqn:E; [done|].
  destruct (inv_jobs _ _ _ I E) as [Hm|Hm]; rewrite Hm in Hw; done.
Qed.

Lemma no_panic_ch s :
  Inv ss d s -> past_wait (mainG s) = false -> ch (eng s) = Open.
Proof.
  intros I Hw. destruct (ch (eng s)) eqn:E; [done|].
  rewrite (inv_ch _ _ _ I E) in Hw. done.
Qed.

Lemma busy_not_waited s tid t :
  Inv ss d s -> pool s !! tid = Some t -> task_units t <> 0 ->
  past_wait (mainG s) = false.
Proof.
  intros I Hl Hu. destruct (past_wait (mainG s)) eqn:E; [|done].
  destruct Hu. by eapply waited_quiet.
Qed.

Lemma walk_step_inv s s' tid sc url pc :
  Inv ss d s -> pool s !! tid = Some (TWalk sc url pc) ->
  walk_step tid sc url pc s = Some s' -> Inv ss d s'.
Proof.
  intros I Hl H. pose proof (units_le_wg s tid _ I Hl) as Hu.
  assert (Hnw : past_wait (mainG s) = false).
  { eapply busy_not_waited; [done..|]. destruct pc; simpl; lia. }
  pose proof (no_panic_jobs s I Hnw) as Hj.
  pose proof (fun t => lookup_app_l_Some _ [t] _ _ Hl) as Hl'.
  unfold walk_step, wg_done in H. rewrite ?Hj in H.
  destruct pc as [|us nx|us nx|us nx|us nx|[|u rest]|u rest|u rest|u rest|];
    simpl in *; repeat case_match; simplify_eq; try lia.
  all: try (match goal with
            | E : (_ <? _) = true |- _ => apply Z.ltb_lt in E; lia
            end).
  all: try (match goal with E : dispG _ = _ |- _ => pose proof E as Ed end).
  all: destruct I; rewrite ?Ed in *; split; simpl; try done.
  all: rewrite ?(sum_over_insert _ _ _ _ _ Hl),
         ?(sum_over_insert _ _ _ _ _ (Hl' _)), ?sum_over_snoc;
       simpl in *; try lia.
  all: try (rewrite Hnw; done).
  all: try (solve [destruct (mainG s); pc_side]).
  all: intros i.
  all: rewrite ?(done_of_insert_same _ _ _ _ _ Hl) by done.
  all: rewrite ?(done_of_insert_same _ _ _ _ _ (Hl' _)) by done.
  all: rewrite ?(done_of_insert_fin _ _ _ _ _ Hl) by done.
  all: rewrite ?done_of_snoc by done.
  all: by rewrite inv_done0.
Qed.

Lemma ext_step_inv s s' tid sc url pc :
  Inv ss d s -> pool s !! tid = Some (TExt sc url pc) ->
  ext_step tid sc url pc s = Some s' -> Inv ss d s'.
Proof.
  intros I Hl H. pose proof (units_le_wg s tid _ I Hl) as Hu.
  assert (Hpc : pc <> E_Finished) by (intros ->; done).
  assert (Hnw : past_wait (mainG s) = false).
  { eapply busy_not_waited; [done..|]. destruct pc; simpl; done || lia. }
  pose proof (no_panic_ch s I Hnw) as Hc.
  unfold ext_step, wg_done in H. rewrite ?Hc in H.
  destruct pc as [| |[|x rest]| |];
    simpl in *; repeat case_match; simplify_eq; try lia.
  all: try (match goal with
            | E : (_ <? _) = true |- _ => apply Z.ltb_lt in E; lia
            end).
  all: try (match goal with E : sinkG _ = _ |- _ => pose proof E as Es end).
  all: destruct I; rewrite ?Es in *; split; simpl; try done.
  all: rewrite ?(sum_over_insert _ _ _ _ _ Hl); simpl in *; try lia.
  all: try (rewrite Hnw; done).
  all: try (solve [destruct (mainG s); pc_side]).
  all: intros i.
  all: rewrite ?(done_of_insert_same _ _ _ _ _ Hl) by done.
  all: rewrite ?(done_of_insert_fin _ _ _ _ _ Hl) by done.
  all: by rewrite inv_done0.
Qed.

Lemma step_inv s a s' : Inv ss d s -> step s a = Some s' -> Inv ss d s'.
Proof.
  intros I H. unfold step in H. rewrite (inv_alive _ _ _ I) in H.
  destruct a as [| | |tid| |dt].
  - by eapply main_step_inv.
  - by eapply disp_step_inv.
  - by eapply sink_step_inv.
  - unfold task_step in H.
    destruct (pool s !! tid) as [[sc url pc|sc url pc]|] eqn:Hl; [| |done].
    + by eapply walk_step_inv.
    + by eapply ext_step_inv.
  - simplify_eq. destruct I; split; simpl; done.
  - case_match; simplify_eq. destruct I; split; simpl; done.
Qed.

Lemma run_inv sched : forall s s',
  Inv ss d s -> run sched s = Some s' -> Inv ss d s'.
Proof.
  induction sched as [|a sched IH]; intros s s' I H; simpl in H.
  - by simplify_eq.
  - destruct (step s a) as [s1|] eqn:E; [|done].
    eapply IH; [|done]. by eapply step_inv.
Qed.

End Preservation.

Section Extraction.

Context {T : Type}.
Implicit Types (s : Sys T) (p : list (task T)) (t : task T).
Variable ss : list (ScraperStrategy T).
Variable d : Z.

Lemma ext_step_ok s tid sc url pc :
  Inv ss d s -> pool s !! tid = Some (TExt sc url pc) ->
  step s (ATask tid) = ext_step tid sc url pc s.
Proof.
  intros I Hl. unfold step, task_step. by rewrite (inv_alive _ _ _ I), Hl.
Qed.

Lemma ext_done_ok s tid sc url pc :
  Inv ss d s -> pool s !! tid = Some (TExt sc url pc) -> pc <> E_Finished ->
  wg_done tid s =
  emit (EvDone tid) (with_eng (set_wg (wg (eng s) - 1) (eng s)) s).
Proof.
  intros I Hl Hpc. pose proof (units_le_wg ss d s tid _ I Hl) as Hu.
  unfold wg_done. destruct (Z.ltb_spec (wg (eng s) - 1) 0); [|done].
  destruct pc; simpl in Hu; done || lia.
Qed.

Lemma ext_ch_open s tid sc url pc :
  Inv ss d s -> pool s !! tid = Some (TExt sc url pc) -> pc <> E_Finished ->
  ch (eng s) = Open.
Proof.
  intros I Hl Hpc. apply (no_panic_ch ss d s I).
  eapply busy_not_waited; [done..|]. destruct pc; simpl; done.
Qed.


Lemma push_all_S tid n :
  push_all tid (S n) = ATask tid :: ASink :: push_all tid n.
Proof.
  unfold push_all. rewrite <- cons_seq. simpl. f_equal. f_equal.
  f_equal. rewrite <- seq_shift. rewrite flat_map_concat_map, map_map.
  by rewrite <- flat_map_concat_map.
Qed.


End Extraction.

Section Reachable.

Context {T : Type}.
Implicit Types (s : Sys T) (ss : list (ScraperStrategy T)).

(** Every state of every run of a new engine satisfies the invariant. *)
Lemma reachable_inv ss d sched s :
  run sched (boot (NewScraper ss d)) = Some s -> Inv ss d s.
Proof. apply run_inv, boot_inv. Qed.

Lemma run_app sched1 sched2 s :
  run (sched1 ++ sched2) s =
  match run sched1 s with
  | Some s1 => run sched2 s1
  | None => None
  end.
Proof.
  revert s. induction sched1 as [|a l IH]; intros s; simpl; [done|].
  destruct (step s a); [apply IH|done].
Qed.

End Reachable.

Section Timing.

Context {T : Type}.
Implicit Types (s : Sys T) (ss : list (ScraperStrategy T)).







End Timing.

Section Marks.

Context {T : Type}.
Implicit Types (s : Sys T) (e : Scraper T) (t : task T).

Lemma scraped_mark_eq u e : scraped u (mark u e) = true.
Proof. unfold scraped. simpl. by rewrite lookup_insert_eq. Qed.

Lemma scraped_mark x u e : scraped x e = true -> scraped x (mark u e) = true.
Proof.
  unfold scraped. simpl. intros H.
  destruct (decide (u = x)) as [->|Hne].
  - by rewrite lookup_insert_eq.
  - by rewrite lookup_insert_ne.
Qed.

Lemma task_marked_mono e e' t :
  (forall x, scraped x e = true -> scraped x e' = true) ->
  task_marked e t = true -> task_marked e' t = true.
Proof.
  intros Hm. destruct t as [sc u pc|]; [|done].
  destruct pc; simpl; auto.
  rewrite !andb_true_iff. intros [? ?]. auto.
Qed.

Lemma marked_mono e' s p :
  (forall x, scraped x (eng s) = true -> scraped x e' = true) ->
  Forall (fun t => task_marked (eng s) t = true) p ->
  Forall (fun t => task_marked e' t = true) p.
Proof.
  intros Hm HF. eapply Forall_impl; [exact HF|].
  intros t. by apply task_marked_mono.
Qed.

Lemma wg_done_marks tid s x :
  scraped x (eng (wg_done tid s)) = scraped x (eng s).
Proof. unfold wg_done. by case_match. Qed.

Lemma wg_done_pool tid s : pool (wg_done tid s) = pool s.
Proof. unfold wg_done. by case_match. Qed.

Lemma mark_step s a s' : MarkInv s -> step s a = Some s' -> MarkInv s'.
Proof.
  unfold MarkInv, step. intros M H. destruct (crashed s); [done|].
  destruct a as [| | |tid| |dt].
  - unfold main_step in H.
    destruct (mainG s) as [| |[|st rest]| | | |]; repeat case_match;
      simplify_eq; simpl; try done.
    apply Forall_app. split; [done|]. by repeat constructor.
  - unfold disp_step in H. repeat case_match; simplify_eq; simpl; try done.
    apply Forall_app. split; [done|]. by repeat constructor.
  - unfold sink_step in H. repeat case_match; simplify_eq; simpl; done.
  - unfold task_step in H.
    destruct (pool s !! tid) as [[sc u pc|sc u pc]|] eqn:Hl; [| |done].
    + pose proof (Forall_lookup_1 _ _ _ _ M Hl) as Ht. simpl in Ht.
      unfold walk_step in H.
      destruct pc as [|us nx|us nx|us nx|us nx|[|c rest]|c rest|c rest|c rest|];
        repeat case_match; simplify_eq; simpl in *;
        rewrite ?wg_done_pool; try done.
      * by apply Forall_insert.
      * apply Forall_insert; [|by simpl; apply scraped_mark_eq].
        eapply marked_mono; [|done]. intros x. apply scraped_mark.
      * by apply Forall_insert.
      * by apply Forall_insert.
      * by apply Forall_insert.
      * apply Forall_insert; [|by simpl; rewrite wg_done_marks].
        eapply marked_mono; [|done]. intros x. by rewrite wg_done_marks.
      * by apply Forall_insert.
      * by apply Forall_insert.
      * by apply Forall_insert.
      * apply Forall_insert.
        -- eapply marked_mono; [|done]. intros x. apply scraped_mark.
        -- simpl. rewrite scraped_mark_eq, scraped_mark; done.
      * apply andb_true_iff in Ht as [? ?]. apply Forall_insert; [|done].
        apply Forall_app. split; [done|]. by repeat constructor.
    + unfold ext_step in H.
      destruct pc as [| |[|x rest]| |];
        repeat case_match; simplify_eq; simpl in *;
        rewrite ?wg_done_pool; try done.
      all: try by apply Forall_insert.
      * apply Forall_insert; [|done].
        eapply marked_mono; [|done]. intros x. apply scraped_mark.
      * apply Forall_insert; [|done].
        eapply marked_mono; [|done]. intros x. by rewrite wg_done_marks.
  - by simplify_eq.
  - case_match; by simplify_eq.
Qed.

Lemma mark_run sched : forall s s',
  MarkInv s -> run sched s = Some s' -> MarkInv s'.
Proof.
  induction sched as [|a sched IH]; intros s s' M H; simpl in H.
  - by simplify_eq.
  - destruct (step s a) as [s1|] eqn:E; [|done].
    eapply IH; [|done]. by eapply mark_step.
Qed.

End Marks.

Section NoStrategy.

Context {T : Type}.
Implicit Types (s : Sys T).
Variable d : Z.

Lemma closing_step s a s' : Closing s -> step s a = Some s' -> Closing s'.
Proof.
  unfold Closing, step. intros C H. destruct (crashed s); [done|].
  destruct a as [| | |tid| |dt].
  - unfold main_step in H.
    destruct (mainG s) as [| |[|? ?]| | | |] eqn:Em; repeat case_match;
      simplify_eq; simpl in *; rewrite ?Em; auto; congruence.
  - assert (mainG s' = mainG s /\ eng s' = eng s) as [-> ->]; [|done].
    clear C. unfold disp_step in H. repeat case_match; simplify_eq; done.
  - assert (mainG s' = mainG s /\ eng s' = eng s) as [-> ->]; [|done].
    clear C. unfold sink_step in H. repeat case_match; simplify_eq; done.
  - assert (mainG s' = mainG s /\ jobs (eng s') = jobs (eng s) /\
            ch (eng s') = ch (eng s)) as (-> & -> & ->); [|done].
    clear C. unfold task_step, walk_step, ext_step, wg_done in H.
    repeat case_match; simplify_eq; done.
  - by simplify_eq.
  - case_match; by simplify_eq.
Qed.

Lemma quiet_step s a s' :
  Inv [] d s -> Quiet s -> step s a = Some s' -> Quiet s'.
Proof.
  intros I (Hp & Hw & Hc & He & Hd & Hs & Hm) H.
  unfold step in H. rewrite (inv_alive _ _ _ I) in H.
  pose proof (inv_strategy _ _ _ I) as Hst.
  destruct a as [| | |tid| |dt].
  - unfold main_step in H. rewrite Hst, Hw in H.
    destruct (mainG s) as [| |rest| | | |] eqn:Em;
      try (rewrite (Hm rest eq_refl) in H);
      repeat case_match; simplify_eq; unfold Quiet; simpl;
      rewrite ?Hw; repeat split; try done.
    all: intros; try by simplify_eq.
    all: congruence.
  - unfold disp_step in H.
    destruct (dispG s) as [| |sc [|u rest]|sc rest|wake sc rest|] eqn:Ed;
      repeat case_match; simplify_eq; unfold Quiet; simpl in *;
      repeat split; try done; lia.
  - unfold sink_step in H.
    destruct (sinkG s) as [| | |x|] eqn:Es;
      repeat case_match; simplify_eq; unfold Quiet; simpl in *;
      repeat split; try done.
    by destruct (Hs x).
  - unfold task_step in H. by rewrite Hp in H.
  - simplify_eq. unfold Quiet; simpl. repeat split; done.
  - case_match; simplify_eq. unfold Quiet; simpl. repeat split; done.
Qed.

Lemma quiet_run sched : forall s s',
  Inv [] d s -> Quiet s -> Closing s -> run sched s = Some s' ->
  Quiet s' /\ Closing s'.
Proof.
  induction sched as [|a sched IH]; intros s s' I Q C H; simpl in H.
  - by simplify_eq.
  - destruct (step s a) as [s1|] eqn:E; [|done].
    eapply IH; [| | |done].
    + by eapply step_inv.
    + by eapply quiet_step.
    + by eapply closing_step.
Qed.

(** With nothing to wait for, the next statement of [Run] is never
    blocked. *)
Lemma quiet_main_step s :
  Inv [] d s -> Quiet s -> mainG s <> M_Returned ->
  exists s1, step s AMain = Some s1 /\
             main_left (mainG s1) = pred (main_left (mainG s)) /\
             trace s1 = trace s.
Proof.
  intros I (Hp & Hw & Hc & He & Hd & Hs & Hm) Hne.
  unfold step. rewrite (inv_alive _ _ _ I). unfold main_step.
  rewrite (inv_strategy _ _ _ I), Hw.
  destruct (mainG s) as [| |rest| | | |] eqn:Em; try done.
  - by eexists.
  - by eexists.
  - rewrite (Hm rest eq_refl). by eexists.
  - by eexists.
  - destruct (jobs (eng s)) eqn:Ej; [by eexists|].
    destruct (inv_jobs _ _ _ I Ej); congruence.
  - destruct (ch (eng s)) eqn:Ec; [by eexists|].
    pose proof (inv_ch _ _ _ I Ec). congruence.
Qed.

Lemma quiet_returns : forall n s,
  Inv [] d s -> Quiet s -> Closing s -> main_left (mainG s) = n ->
  exists s', run (repeat AMain n) s = Some s' /\
             mainG s' = M_Returned /\
             jobs (eng s') = Closed /\ ch (eng s') = Closed /\
             trace s' = trace s /\ pool s' = [].
Proof.
  induction n as [|n IH]; intros s I Q C Hn.
  - exists s. split; [done|]. unfold Closing in C.
    destruct (mainG s) eqn:Em; simpl in Hn; try done.
    destruct C, Q as [? _]. done.
  - destruct (quiet_main_step s I Q) as (s1 & E1 & Hl & Ht).
    { intros Em. by rewrite Em in Hn. }
    destruct (IH s1) as (s' & Hr & ? & ? & ? & Ht' & ?).
    + by eapply step_inv.
    + by eapply quiet_step.
    + by eapply closing_step.
    + rewrite Hl, Hn. done.
    + exists s'. split; [by simpl; rewrite E1|]. rewrite Ht', Ht. done.
Qed.

End NoStrategy.

(** * The claims *)

Section Claims.

Context {T : Type}.
Implicit Types (s : Sys T) (ss : list (ScraperStrategy T)).

(** C1, as the code has it. [Run] never returns once there is a
    strategy: every walker leaves the unit of line 109 on the wait group,
    so the counter is positive at line 144 for ever, [Wait] never returns
    and neither channel is ever closed. The claim asks [Run] to return on
    every finite pagination graph. *)
Theorem Run_never_returns ss d sched s :
  ss <> [] ->
  run sched (boot (NewScraper ss d)) = Some s ->
  past_wait (mainG s) = false /\
  jobs (eng s) = Open /\ ch (eng s) = Open /\
  (mainG s = M_Wait -> 0 < wg (eng s) /\ step s AMain = None).
Proof.
  intros Hss Hr. pose proof (reachable_inv _ _ _ _ Hr) as I.
  pose proof (walkers_le_wg ss d s I) as Hw.
  pose proof (inv_walkers _ _ _ I) as Hn.
  assert (0 < Z.of_nat (length ss)) as Hpos by (destruct ss; simpl; done || lia).
  assert (Hnw : past_wait (mainG s) = false).
  { destruct (past_wait (mainG s)) eqn:E; [|done].
    pose proof (inv_waited _ _ _ I E). destruct (mainG s); simpl in *; done || lia. }
  split; [done|]. split; [by eapply no_panic_jobs|].
  split; [by eapply no_panic_ch|].
  intros Em. rewrite Em in Hn. simpl in Hn. split; [lia|].
  unfold step. rewrite (inv_alive _ _ _ I). unfold main_step. rewrite Em.
  destruct (Z.eqb_spec (wg (eng s)) 0); [lia|done].
Qed.


(** C10. With an empty strategy list [Run] returns: in every state of
    every run the counter it waits on is zero, no goroutine was started
    and neither the callback nor an extractor method has been called;
    and from that state [Run] needs at most its six statements, none of
    which blocks, to return with both channels closed and the trace
    unchanged. *)
Theorem empty_strategy_run_returns d sched s :
  run sched (boot (NewScraper [] d)) = Some s ->
  wg (eng s) = 0 /\ pool s = [] /\
  callbacks (trace s) = [] /\ extractor_calls (trace s) = 0%nat /\
  exists s',
    (main_left (mainG s) <= 6)%nat /\
    run (repeat AMain (main_left (mainG s))) s = Some s' /\
    mainG s' = M_Returned /\
    jobs (eng s') = Closed /\ ch (eng s') = Closed /\
    trace s' = trace s /\ pool s' = [].
Proof.
  intros Hr. pose proof (reachable_inv _ _ _ _ Hr) as I.
  destruct (quiet_run d sched _ s (boot_inv [] d)) as [Q C]; [done..|].
  pose proof Q as (Hp & Hw & Hc & He & _ & _ & Hm).
  repeat (split; [done|]).
  destruct (quiet_returns d _ s I Q C eq_refl) as (s' & ? & ? & ? & ? & ? & ?).
  exists s'. repeat (split; [done|]). split; [|done].
  destruct (mainG s) as [| |rest| | | |] eqn:Em; simpl; try lia.
  rewrite (Hm rest eq_refl). simpl. lia.
Qed.

End Claims.

(** * The claims on the sites *)

Section OnSites.

Import Sites.
Local Open Scope string_scope.

(** The self-loop, run until nothing can move: the walker has finished,
    the page was walked once, and [Run] sits in [Wait] with the counter
    at one while the dispatcher and the sink wait for a channel that
    nobody will use or close. *)
Example selfloop_deadlock :
  let s := after selfloop_sched selfloop_boot in
  run selfloop_sched selfloop_boot = Some s /\
  walked (trace s) = ["p"] /\
  mainG s = M_Wait /\ wg (eng s) = 1 /\
  step s AMain = None /\ step s ADisp = None /\ step s ASink = None /\
  step s (ATask 0) = None /\ length (pool s) = 1%nat.
Proof. vm_compute. repeat split; reflexivity. Qed.

Lemma Run_never_returns_witness :
  let s := after selfloop_sched selfloop_boot in
  [seed selfloop "p"] <> [] /\
  run selfloop_sched selfloop_boot = Some s /\
  past_wait (mainG s) = false /\
  jobs (eng s) = Open /\ ch (eng s) = Open /\
  (mainG s = M_Wait -> 0 < wg (eng s) /\ step s AMain = None).
Proof.
  split; [discriminate|]. split; [vm_compute; reflexivity|].
  apply (Run_never_returns [seed selfloop "p"] 0 selfloop_sched);
    [discriminate|vm_compute; reflexivity].
Defined.

(** C2, as the code has it. On the two pages of the claim the callback
    is called twice for b: the extraction of b from "p1" and the one from
    "p2" both pass line 68 before either reaches line 75. The claim asks
    for once. *)
Theorem callback_twice_for_b :
  let s1 := after (two_pages_walk ++ [ATask 4%nat]) two_pages_boot in
  let s := after two_pages_sched two_pages_boot in
  run (two_pages_walk ++ [ATask 4%nat]) two_pages_boot = Some s1 /\
  pool s1 !! 2%nat = Some (TExt two_pages "b" (E_Send ["b"])) /\
  pool s1 !! 4%nat = Some (TExt two_pages "b" E_Call) /\
  scrapedUrls (eng s1) !! "b" = None /\
  run two_pages_sched two_pages_boot = Some s /\
  rev (callbacks (trace s)) = ["b"; "b"; "a"; "c"] /\
  rev (extracted (trace s)) = ["b"; "b"; "a"; "c"] /\
  rev (walked (trace s)) = ["p1"; "p2"].
Proof. vm_compute. repeat split; reflexivity. Qed.

(** C3, as the code has it. Three goroutines claim b at the same time
    and all three succeed: line 68 only reads the map, so after the three
    checks b is still absent and each goroutine is at [GetData], which
    each then calls. The claim asks that exactly one succeeds. *)
Theorem three_claims_all_succeed :
  let s0 := after thrice_launched thrice_boot in
  let s1 := after thrice_claims thrice_boot in
  let s2 := after thrice_sched thrice_boot in
  run thrice_launched thrice_boot = Some s0 /\
  pool s0 = [TWalk thrice "p" (W_Loop []); TExt thrice "b" E_Check;
             TExt thrice "b" E_Check; TExt thrice "b" E_Check] /\
  run thrice_claims thrice_boot = Some s1 /\
  pool s1 = [TWalk thrice "p" (W_Loop []); TExt thrice "b" E_Call;
             TExt thrice "b" E_Call; TExt thrice "b" E_Call] /\
  scrapedUrls (eng s1) !! "b" = None /\
  run thrice_sched thrice_boot = Some s2 /\
  extracted (trace s2) = ["b"; "b"; "b"].
Proof. vm_compute. repeat split; reflexivity. Qed.

(** C4, as the code has it. The sink looks at the context once, at its
    [select]; cancelled right after, it goes on to take every item of
    the crawl to the callback and in the end still waits for more. The
    claim asks it to stop on the next turn. *)
Theorem sink_ignores_cancel_in_loop :
  let s1 := after (firstn 6 cancel_sched) two_pages_boot in
  let s := after cancel_sched two_pages_boot in
  run (firstn 6 cancel_sched) two_pages_boot = Some s1 /\
  cancelled s1 = true /\ sinkG s1 = S_Loop /\ callbacks (trace s1) = [] /\
  run cancel_sched two_pages_boot = Some s /\
  rev (callbacks (trace s)) = ["b"; "b"; "a"; "c"] /\
  cancelled s = true /\ sinkG s = S_Loop /\ step s ASink = None.
Proof. vm_compute. repeat split; reflexivity. Qed.

(** C5, as the code has it. On the diamond the walkers of "p2" and "p3"
    both find "p4" unclaimed at line 116 before either marks it at line
    121, and "p4" is walked twice. The claim asks for at most once. *)
Theorem diamond_walks_p4_twice :
  let s := after diamond_sched diamond_boot in
  run diamond_sched diamond_boot = Some s /\
  rev (walked (trace s)) = ["p1"; "p2"; "p3"; "p4"; "p4"] /\
  Forall (fun t => finished t = true) (pool s).
Proof.
  vm_compute. repeat split; try reflexivity. repeat constructor.
Qed.

(** C8, as the code has it. [Run] starts one walker per strategy without
    looking at or marking the seed: with two strategies on "p", when
    [Run] reaches [Wait] the visited set is empty and two walkers stand
    before [GetUrls] on "p"; the page is walked twice, even when the
    second walker starts after the first has finished, and its item is
    submitted twice. The claim asks that the seed be marked before any
    walker can start and that only one walks it. *)
Theorem shared_seed_walked_twice :
  let s1 := after shared_seed_started shared_seed_boot in
  let s := after shared_seed_sched shared_seed_boot in
  run shared_seed_started shared_seed_boot = Some s1 /\
  mainG s1 = M_Wait /\
  scrapedUrls (eng s1) !! "p" = None /\
  pool s1 = [TWalk one_page "p" W_GetUrls; TWalk one_page "p" W_GetUrls] /\
  run shared_seed_sched shared_seed_boot = Some s /\
  rev (walked (trace s)) = ["p"; "p"] /\
  pool s = [TWalk one_page "p" W_Finished; TWalk one_page "p" W_Finished;
            TExt one_page "a" E_Check; TExt one_page "a" E_Check].
Proof. vm_compute. repeat split; reflexivity. Qed.

(** One second of delay, two items: the launches are one second apart. *)
Example delayed_launches :
  let s := after delayed_sched delayed_boot in
  run delayed_sched delayed_boot = Some s /\
  launches s = [0; 1000000000] /\
  rev (trace s) = [EvGetUrls 0 "p"; EvLaunch 1 "a" 0;
                   EvLaunch 2 "b" 1000000000].
Proof. vm_compute. repeat split; reflexivity. Qed.


Lemma empty_strategy_run_returns_witness :
  let s := after empty_started empty_boot in
  run empty_started empty_boot = Some s /\
  wg (eng s) = 0 /\ pool s = [] /\
  callbacks (trace s) = [] /\ extractor_calls (trace s) = 0%nat /\
  exists s',
    (main_left (mainG s) <= 6)%nat /\
    run (repeat AMain (main_left (mainG s))) s = Some s' /\
    mainG s' = M_Returned /\
    jobs (eng s') = Closed /\ ch (eng s') = Closed /\
    trace s' = trace s /\ pool s' = [].
Proof.
  split; [vm_compute; reflexivity|].
  apply (empty_strategy_run_returns 0 empty_started). vm_compute; reflexivity.
Defined.

End OnSites.

(** * Further properties of the engine *)

Section VisitedSet.

Context {T : Type}.
Implicit Types (s : Sys T).

Lemma scraped_step s a s' x :
  step s a = Some s' -> scraped x (eng s) = true -> scraped x (eng s') = true.
Proof.
  unfold step. intros H Hx. destruct (crashed s); [done|].
  destruct a as [| | |tid| |dt].
  - unfold main_step in H. repeat case_match; simplify_eq; done.
  - unfold disp_step in H. repeat case_match; simplify_eq; done.
  - unfold sink_step in H. repeat case_match; simplify_eq; done.
  - unfold task_step, walk_step, ext_step in H.
    repeat case_match; simplify_eq; simpl;
      rewrite ?wg_done_marks; try done; by apply scraped_mark.
  - by simplify_eq.
  - case_match; by simplify_eq.
Qed.

Lemma scraped_run sched : forall s s' x,
  run sched s = Some s' -> scraped x (eng s) = true ->
  scraped x (eng s') = true.
Proof.
  induction sched as [|a sched IH]; intros s s' x H Hx; simpl in H.
  - by simplify_eq.
  - destruct (step s a) as [s1|] eqn:E; [|done].
    eapply IH; [done|]. by eapply scraped_step.
Qed.

(** X1. The visited set only grows: a URL found in [scrapedUrls] in some
    state of a run is found there in every later state (lines 75, 107
    and 121 are the only writes, and nothing deletes). *)
Theorem visited_set_only_grows sched s s' x :
  run sched s = Some s' -> scraped x (eng s) = true ->
  scraped x (eng s') = true.
Proof. apply scraped_run. Qed.

End VisitedSet.

Section ExtractorCalls.

Context {T : Type}.
Implicit Types (s : Sys T) (p : list (task T)) (t : task T).

Lemma wg_done_walks tid i s :
  walks_of i (trace (wg_done tid s)) = walks_of i (trace s).
Proof. unfold wg_done. by case_match. Qed.

Lemma wg_done_extracts tid i s :
  extracts_of i (trace (wg_done tid s)) = extracts_of i (trace s).
Proof. unfold wg_done. by case_match. Qed.

Lemma calls_insert p tid t t' i w e :
  p !! tid = Some t ->
  (i <> tid -> calls_ok (p !! i) w e) ->
  (i = tid -> calls_ok (Some t') w e) ->
  calls_ok (<[tid := t']> p !! i) w e.
Proof.
  intros Hl H1 H2. rewrite (lookup_insert_cases _ _ _ _ _ Hl).
  destruct (Nat.eqb_spec i tid); auto.
Qed.

Lemma calls_snoc p t i w e :
  calls_ok (p !! i) w e ->
  (i = length p -> calls_ok (Some t) w e) ->
  calls_ok ((p ++ [t]) !! i) w e.
Proof.
  intros H1 H2. rewrite lookup_snoc_cases.
  destruct (p !! i) eqn:E; [done|].
  destruct (Nat.eqb_spec i (length p)); auto.
Qed.

Lemma calls_fresh p i w e :
  calls_ok (p !! i) w e -> i = length p -> w = [] /\ e = [].
Proof.
  intros H ->. by rewrite (lookup_ge_None_2 p (length p)) in H by lia.
Qed.

Lemma call_step s a s' : CallInv s -> step s a = Some s' -> CallInv s'.
Proof.
  unfold CallInv, step. intros C H. destruct (crashed s); [done|].
  destruct a as [| | |tid| |dt].
  - unfold main_step in H.
    destruct (mainG s) as [| |[|st rest]| | | |]; repeat case_match;
      simplify_eq; simpl; try done.
    intros i. apply calls_snoc; [done|]. intros Hi.
    destruct (calls_fresh _ _ _ _ (C i) Hi) as [-> ->]. done.
  - unfold disp_step in H.
    destruct (dispG s) as [| |sc [|u rest]|sc rest|wake sc rest|];
      repeat case_match; simplify_eq; simpl; try done.
    intros i. apply calls_snoc; [done|]. intros Hi.
    destruct (calls_fresh _ _ _ _ (C i) Hi) as [-> ->]. done.
  - unfold sink_step in H. repeat case_match; simplify_eq; simpl; done.
  - unfold task_step in H.
    destruct (pool s !! tid) as [[sc u pc|sc u pc]|] eqn:Hl; [| |done].
    + pose proof (fun t => lookup_app_l_Some _ [t] _ _ Hl) as Hl'.
      pose proof (C tid) as Ct. rewrite Hl in Ct. simpl in Ct.
      destruct Ct as [Ce Cw].
      unfold walk_step in H.
      destruct pc as [|us nx|us nx|us nx|us nx|[|c rest]|c rest|c rest|c rest|];
        repeat case_match; simplify_eq; simpl;
        rewrite ?wg_done_pool; try done.
      all: intros i; rewrite ?wg_done_walks, ?wg_done_extracts.
      all: try (eapply calls_insert; [done|intros; apply C|intros ->; by simpl]).
      * destruct (Nat.eqb_spec tid i) as [->|Hne].
        -- eapply calls_insert; [done|done|]. intros _. simpl. by rewrite Cw.
        -- eapply calls_insert; [done|intros; apply C|]. by intros ->.
      * eapply calls_insert; [apply Hl'|..].
        -- intros Hne. apply calls_snoc; [apply C|]. intros Hi.
           destruct (calls_fresh _ _ _ _ (C i) Hi) as [-> ->]. done.
        -- intros ->. by simpl.
    + pose proof (C tid) as Ct. rewrite Hl in Ct. simpl in Ct.
      destruct Ct as [Cw Ce].
      unfold ext_step in H.
      destruct pc as [| |[|x rest]| |];
        repeat case_match; simplify_eq; simpl;
        rewrite ?wg_done_pool; try done.
      all: intros i; rewrite ?wg_done_walks, ?wg_done_extracts.
      all: try (eapply calls_insert;
                [done|intros; apply C|intros ->; simpl; auto]).
      * destruct (Nat.eqb_spec tid i) as [->|Hne].
        -- eapply calls_insert; [done|done|]. intros _. simpl. by rewrite Ce.
        -- eapply calls_insert; [done|intros; apply C|]. by intros ->.
  - simplify_eq. simpl. done.
  - case_match; simplify_eq. simpl. done.
Qed.

End ExtractorCalls.

Section ExtractorCallsRun.

Context {T : Type}.
Implicit Types (s : Sys T) (p : list (task T)) (t : task T).

Lemma call_run sched : forall s s',
  CallInv s -> run sched s = Some s' -> CallInv s'.
Proof.
  induction sched as [|a sched IH]; intros s s' C H; simpl in H.
  - by simplify_eq.
  - destruct (step s a) as [s1|] eqn:E; [|done].
    eapply IH; [|done]. by eapply call_step.
Qed.

Lemma reachable_calls (ss : list (ScraperStrategy T)) d sched s :
  run sched (boot (NewScraper ss d)) = Some s -> CallInv s.
Proof. apply call_run. intros tid. by simpl. Qed.

(** X2. Every goroutine calls the extractor once at most, and on its own
    URL: a walker has called [GetUrls] on its page exactly once as soon
    as it is past line 106, and never [GetData]; an extraction never
    calls [GetUrls], has not called [GetData] before line 74, has called
    it exactly once on its URL while it pushes items, and at most once
    when it is done. *)
Theorem one_extractor_call_per_goroutine
    (ss : list (ScraperStrategy T)) d sched s tid :
  run sched (boot (NewScraper ss d)) = Some s ->
  (forall sc u pc, pool s !! tid = Some (TWalk sc u pc) ->
     extracts_of tid (trace s) = [] /\
     walks_of tid (trace s) = match pc with W_GetUrls => [] | _ => [u] end) /\
  (forall sc u pc, pool s !! tid = Some (TExt sc u pc) ->
     walks_of tid (trace s) = [] /\
     (extracts_of tid (trace s) = [] \/ extracts_of tid (trace s) = [u]) /\
     (pc = E_Check \/ pc = E_Call -> extracts_of tid (trace s) = []) /\
     (forall items, pc = E_Send items -> extracts_of tid (trace s) = [u])).
Proof.
  intros Hr. pose proof (reachable_calls _ _ _ _ Hr tid) as C.
  split; intros sc u pc Hl; rewrite Hl in C; simpl in C.
  - done.
  - destruct C as [Cw Ce]. split; [done|].
    destruct pc; repeat split; auto; try (intros [?|?]; done);
      try (intros; done).
Qed.

(** What a step of another goroutine, or of the environment, leaves
    untouched for goroutine [tid]. *)
Lemma step_frame s a s' tid t :
  step s a = Some s' -> a <> ATask tid -> pool s !! tid = Some t ->
  pool s' !! tid = Some t /\
  extracts_of tid (trace s') = extracts_of tid (trace s) /\
  walks_of tid (trace s') = walks_of tid (trace s).
Proof.
  unfold step. intros H Ha Hl. destruct (crashed s); [done|].
  pose proof (fun x => lookup_app_l_Some _ [x] _ _ Hl) as Hl'.
  destruct a as [| | |tid'| |dt].
  - unfold main_step in H.
    destruct (mainG s) as [| |[|st rest]| | | |]; repeat case_match;
      simplify_eq; simpl; auto.
  - unfold disp_step in H.
    destruct (dispG s) as [| |sc [|u rest]|sc rest|wake sc rest|];
      repeat case_match; simplify_eq; simpl; auto.
  - unfold sink_step in H. repeat case_match; simplify_eq; simpl; auto.
  - assert (tid' <> tid) as Hne by congruence.
    assert (Nat.eqb tid' tid = false) as Hb by by apply Nat.eqb_neq.
    unfold task_step, walk_step, ext_step in H.
    repeat case_match; simplify_eq; simpl;
      rewrite ?wg_done_pool, ?wg_done_walks, ?wg_done_extracts, ?Hb;
      rewrite ?list_lookup_insert_ne by done; auto.
  - simplify_eq. simpl. auto.
  - case_match; simplify_eq. simpl. auto.
Qed.

Lemma action_is_task (a : action) tid : a = ATask tid \/ a <> ATask tid.
Proof.
  destruct a as [| | |tid'| |dt]; try (right; discriminate).
  destruct (Nat.eq_dec tid' tid) as [->|Hne]; [by left|right; congruence].
Qed.

Lemma skipping_step tid sc u s a s' :
  skipping tid sc u s -> step s a = Some s' -> skipping tid sc u s'.
Proof.
  intros (Hs & He & pc & Hl & Hpc) H.
  split; [by eapply scraped_step|].
  destruct (action_is_task a tid) as [->|Ha].
  - unfold step in H. destruct (crashed s); [done|].
    unfold task_step in H. rewrite Hl in H. unfold ext_step in H.
    pose proof (lookup_lt_Some _ _ _ Hl) as Hlt.
    destruct Hpc as [->|[->| ->]]; [| |done].
    + rewrite Hs in H. simplify_eq. simpl. split; [done|].
      exists E_Done. split; [|auto]. by apply list_lookup_insert_eq.
    + simplify_eq. simpl. rewrite wg_done_extracts, wg_done_pool.
      split; [done|]. exists E_Finished. split; [|auto].
      by apply list_lookup_insert_eq.
  - destruct (step_frame _ _ _ _ _ H Ha Hl) as (Hl' & He' & _).
    split; [by rewrite He'|]. by exists pc.
Qed.

Lemma skipping_run tid sc u sched : forall s s',
  skipping tid sc u s -> run sched s = Some s' -> skipping tid sc u s'.
Proof.
  induction sched as [|a sched IH]; intros s s' K H; simpl in H.
  - by simplify_eq.
  - destruct (step s a) as [s1|] eqn:E; [|done].
    eapply IH; [|done]. by eapply skipping_step.
Qed.

(** X3. Deduplication without a race: an extraction that reaches line 68
    when its URL is already in the visited set never calls [GetData],
    whatever else happens afterwards; it only goes on to its [Done]. *)
Theorem marked_url_never_extracted
    (ss : list (ScraperStrategy T)) d sched0 s sched s' tid sc u :
  run sched0 (boot (NewScraper ss d)) = Some s ->
  pool s !! tid = Some (TExt sc u E_Check) ->
  scraped u (eng s) = true ->
  run sched s = Some s' ->
  extracts_of tid (trace s') = [] /\
  exists pc, pool s' !! tid = Some (TExt sc u pc) /\
             (pc = E_Check \/ pc = E_Done \/ pc = E_Finished).
Proof.
  intros Hr Hl Hs H. pose proof (reachable_calls _ _ _ _ Hr tid) as C.
  rewrite Hl in C. simpl in C. destruct C as [_ Ce].
  destruct (skipping_run tid sc u sched s s') as (_ & He & Hp); [|done|done].
  split; [done|]. split; [done|]. exists E_Check. auto.
Qed.

(** X4. One set for pages and items: an item whose URL is the URL of a
    page that some walker has passed line 107 on is never extracted, if
    its goroutine has not passed line 68 by then. *)
Theorem walked_page_url_never_extracted
    (ss : list (ScraperStrategy T)) d sched0 s sched s' w scw pcw tid sc u :
  run sched0 (boot (NewScraper ss d)) = Some s ->
  pool s !! w = Some (TWalk scw u pcw) ->
  pcw <> W_GetUrls -> (forall us nx, pcw <> W_Mark us nx) ->
  pool s !! tid = Some (TExt sc u E_Check) ->
  run sched s = Some s' ->
  extracts_of tid (trace s') = [].
Proof.
  intros Hr Hw H1 H2 Hl H. pose proof (reachable_calls _ _ _ _ Hr tid) as C.
  rewrite Hl in C. simpl in C. destruct C as [_ Ce].
  assert (MarkInv s) as M by (eapply mark_run; [|done]; constructor).
  pose proof (Forall_lookup_1 _ _ _ _ M Hw) as Hm. simpl in Hm.
  assert (scraped u (eng s) = true) as Hs.
  { destruct pcw; try done.
    - by destruct (H2 us next).
    - by apply andb_true_iff in Hm as [? ?]. }
  destruct (skipping_run tid sc u sched s s') as (_ & He & _); [|done|done].
  split; [done|]. split; [done|]. exists E_Check. auto.
Qed.

End ExtractorCallsRun.

Section OwnUrl.

Context {T : Type}.
Implicit Types (s : Sys T) (p : list (task T)) (t : task T).

Lemma own_step s a s' :
  MarkInv s -> OwnInv s -> step s a = Some s' -> OwnInv s'.
Proof.
  unfold MarkInv, OwnInv, step. intros M O H. destruct (crashed s); [done|].
  destruct a as [| | |tid| |dt].
  - unfold main_step in H.
    destruct (mainG s) as [| |[|st rest]| | | |]; repeat case_match;
      simplify_eq; simpl; try done.
    apply Forall_app. split; [done|]. by repeat constructor.
  - unfold disp_step in H. repeat case_match; simplify_eq; simpl; try done.
    apply Forall_app. split; [done|]. by repeat constructor.
  - unfold sink_step in H. repeat case_match; simplify_eq; simpl; done.
  - unfold task_step in H.
    destruct (pool s !! tid) as [[sc u pc|sc u pc]|] eqn:Hl; [| |done].
    + pose proof (Forall_lookup_1 _ _ _ _ M Hl) as Hm.
      pose proof (Forall_lookup_1 _ _ _ _ O Hl) as Ho. simpl in Hm, Ho.
      unfold walk_step in H.
      destruct pc as [|us nx|us nx|us nx|us nx|[|c rest]|c rest|c rest|c rest|];
        repeat case_match; simplify_eq; simpl in *;
        rewrite ?wg_done_pool; try done.
      all: try (apply Forall_insert; [done|by simpl]).
      * apply Forall_insert; [done|]. simpl. intros E. simplify_eq. congruence.
      * apply Forall_insert; [|by simpl].
        apply Forall_app. split; [done|]. by repeat constructor.
    + unfold ext_step in H.
      destruct pc as [| |[|x rest]| |];
        repeat case_match; simplify_eq; simpl in *;
        rewrite ?wg_done_pool; try done.
      all: by apply Forall_insert.
  - by simplify_eq.
  - case_match; by simplify_eq.
Qed.

Lemma own_run sched : forall s s',
  MarkInv s -> OwnInv s -> run sched s = Some s' -> OwnInv s'.
Proof.
  induction sched as [|a sched IH]; intros s s' M O H; simpl in H.
  - by simplify_eq.
  - destruct (step s a) as [s1|] eqn:E; [|done].
    eapply IH; [| |done].
    + by eapply mark_step.
    + by eapply own_step.
Qed.

(** X5. A page that links to itself is pruned at line 116: a walker
    never claims its own URL as a next page, so the child walker it
    starts at line 124 is never on the page it is walking itself. *)
Theorem walker_never_claims_own_url
    (ss : list (ScraperStrategy T)) d sched s tid sc u pc :
  run sched (boot (NewScraper ss d)) = Some s ->
  pool s !! tid = Some (TWalk sc u pc) ->
  claiming pc <> Some u /\
  (forall c rest, pc = W_Spawn c rest ->
     c <> u /\
     step s (ATask tid) =
     Some (set_task tid (TWalk sc u (W_Loop rest))
             (spawn (TWalk sc c W_GetUrls) s))).
Proof.
  intros Hr Hl. pose proof (reachable_inv _ _ _ _ Hr) as I.
  assert (OwnInv s) as O by (eapply own_run; [| |done]; constructor).
  pose proof (Forall_lookup_1 _ _ _ _ O Hl) as Ho. simpl in Ho.
  split; [done|]. intros c rest ->. simpl in Ho. split; [congruence|].
  unfold step, task_step. by rewrite (inv_alive _ _ _ I), Hl.
Qed.

End OwnUrl.

Section SinkAndDelay.

Context {T : Type}.
Implicit Types (s : Sys T) (p : list (task T)) (t : task T).
Variable ss : list (ScraperStrategy T).
Variable d : Z.

Lemma before_loop_step s a s' :
  Inv ss d s ->
  (sink_before_loop (sinkG s) = true -> callbacks (trace s) = []) ->
  step s a = Some s' ->
  sink_before_loop (sinkG s') = true -> callbacks (trace s') = [].
Proof.
  intros I B H. unfold step in H. rewrite (inv_alive _ _ _ I) in H.
  pose proof (inv_idle _ _ _ I) as Hi.
  destruct a as [| | |tid| |dt].
  - unfold main_step in H.
    destruct (mainG s) as [| |[|st rest]| | | |]; repeat case_match;
      simplify_eq; simpl; try done.
    intros _. apply B. by destruct Hi as [_ ->].
  - unfold disp_step in H. clear Hi.
    repeat case_match; simplify_eq; simpl; done.
  - unfold sink_step in H. clear Hi.
    destruct (sinkG s); repeat case_match; simplify_eq; simpl in *; auto; done.
  - unfold task_step, walk_step, ext_step, wg_done in H. clear Hi.
    destruct (sinkG s) eqn:Es;
      repeat case_match; simplify_eq; simpl in *; rewrite ?Es; simpl;
      intros ?; try done; by apply B.
  - simplify_eq. simpl. intros ?. by apply B.
  - clear Hi. case_match; simplify_eq. simpl. intros ?. by apply B.
Qed.

Lemma before_loop_run sched : forall s s',
  Inv ss d s ->
  (sink_before_loop (sinkG s) = true -> callbacks (trace s) = []) ->
  run sched s = Some s' ->
  sink_before_loop (sinkG s') = true -> callbacks (trace s') = [].
Proof.
  induction sched as [|a sched IH]; intros s s' I B H; simpl in H.
  - by simplify_eq.
  - destruct (step s a) as [s1|] eqn:E; [|done].
    eapply IH; [| |done].
    + by eapply step_inv.
    + by eapply before_loop_step.
Qed.

(** A sink that met a cancelled context at its [select]. *)
Lemma dead_sink_step s a s' :
  Inv ss d s -> cancelled s = true ->
  sinkG s = S_Select \/ sinkG s = S_Exit ->
  step s a = Some s' ->
  cancelled s' = true /\ (sinkG s' = S_Select \/ sinkG s' = S_Exit) /\
  callbacks (trace s') = callbacks (trace s).
Proof.
  intros I Hc Hk H. unfold step in H. rewrite (inv_alive _ _ _ I) in H.
  pose proof (inv_idle _ _ _ I) as Hi.
  destruct a as [| | |tid| |dt].
  - unfold main_step in H.
    destruct (mainG s) as [| |[|st rest]| | | |]; repeat case_match;
      simplify_eq; simpl; auto.
  - unfold disp_step in H. clear Hi.
    repeat case_match; simplify_eq; simpl; auto.
  - unfold sink_step in H. clear Hi. rewrite Hc in H.
    destruct Hk as [Hk|Hk]; rewrite Hk in H; simplify_eq; simpl; auto.
  - unfold task_step, walk_step, ext_step, wg_done in H. clear Hi.
    destruct Hk as [Hk|Hk]; rewrite Hk in H;
      repeat case_match; simplify_eq; simpl; rewrite ?Hk; auto.
  - simplify_eq. simpl. auto.
  - clear Hi. case_match; simplify_eq. simpl. auto.
Qed.

Lemma dead_sink_run sched : forall s s',
  Inv ss d s -> cancelled s = true ->
  sinkG s = S_Select \/ sinkG s = S_Exit ->
  run sched s = Some s' ->
  cancelled s' = true /\ (sinkG s' = S_Select \/ sinkG s' = S_Exit) /\
  callbacks (trace s') = callbacks (trace s).
Proof.
  induction sched as [|a sched IH]; intros s s' I Hc Hk H; simpl in H.
  - by simplify_eq.
  - destruct (step s a) as [s1|] eqn:E; [|done].
    destruct (dead_sink_step _ _ _ I Hc Hk E) as (Hc1 & Hk1 & Hcb1).
    destruct (IH s1 s') as (? & ? & Hcb); try done.
    + by eapply step_inv.
    + repeat split; try done. by rewrite Hcb.
Qed.

Lemma no_sleep_step s a s' :
  d <= 0 -> Inv ss d s ->
  (forall wake j rest, dispG s <> D_Sleep wake j rest) ->
  step s a = Some s' ->
  forall wake j rest, dispG s' <> D_Sleep wake j rest.
Proof.
  intros Hd I N H. unfold step in H. rewrite (inv_alive _ _ _ I) in H.
  pose proof (inv_delay _ _ _ I) as Hdel.
  destruct a as [| | |tid| |dt].
  - unfold main_step in H.
    destruct (mainG s) as [| |[|st rest]| | | |]; repeat case_match;
      simplify_eq; simpl; done.
  - unfold disp_step in H.
    destruct (dispG s) as [| |sc [|u rest]|sc rest|wake sc rest|] eqn:Ed;
      repeat case_match; simplify_eq; simpl; try done.
    match goal with E : (0 <? _) = true |- _ => apply Z.ltb_lt in E; lia end.
  - unfold sink_step in H. repeat case_match; simplify_eq; simpl; done.
  - unfold task_step, walk_step, ext_step, wg_done in H.
    repeat case_match; simplify_eq; simpl; done.
  - simplify_eq. simpl. done.
  - case_match; simplify_eq. simpl. done.
Qed.

Lemma no_sleep_run sched : forall s s',
  d <= 0 -> Inv ss d s ->
  (forall wake j rest, dispG s <> D_Sleep wake j rest) ->
  run sched s = Some s' ->
  forall wake j rest, dispG s' <> D_Sleep wake j rest.
Proof.
  induction sched as [|a sched IH]; intros s s' Hd I N H; simpl in H.
  - by simplify_eq.
  - destruct (step s a) as [s1|] eqn:E; [|done].
    eapply IH; [done| | |done].
    + by eapply step_inv.
    + by eapply no_sleep_step.
Qed.

Lemma finished_units p :
  Forall (fun t => finished t = true) p ->
  sum_over task_units p = sum_over is_walk p.
Proof.
  induction 1 as [|t p Ht _ IH]; simpl; [done|]. rewrite IH.
  destruct t as [? ? []|? ? []]; simpl in *; done.
Qed.

Lemma spawn_loop : forall rest s,
  crashed s = false -> mainG s = M_Spawn rest ->
  run (repeat AMain (length rest)) s =
  Some (with_main (M_Spawn []) (with_pool (pool s ++ seed_walkers rest) s)).
Proof.
  induction rest as [|st rest IH]; intros s Hc Hm.
  - simpl. rewrite app_nil_r. destruct s; simpl in *. by subst.
  - simpl. unfold step, main_step. rewrite Hc, Hm.
    rewrite IH by done. simpl. by rewrite <- app_assoc.
Qed.

End SinkAndDelay.

Section RunStart.

Context {T : Type}.

Lemma main_to_wait (ss : list (ScraperStrategy T)) d :
  run (repeat AMain (3 + length ss)) (boot (NewScraper ss d)) =
  Some {| eng := set_wg (Z.of_nat (length ss)) (NewScraper ss d);
          mainG := M_Wait; dispG := D_Recv; sinkG := S_Select;
          pool := seed_walkers ss;
          cancelled := false; now := 0; trace := []; crashed := false |}.
Proof.
  set (s2 := {| eng := set_wg (Z.of_nat (length ss)) (NewScraper ss d);
                mainG := M_Spawn ss; dispG := D_Recv; sinkG := S_Select;
                pool := []; cancelled := false; now := 0; trace := [];
                crashed := false |} : Sys T).
  assert (run [AMain; AMain] (boot (NewScraper ss d)) = Some s2) as E2
    by reflexivity.
  change (repeat AMain (3 + length ss))
    with ([AMain; AMain] ++ (AMain :: repeat AMain (length ss))).
  rewrite repeat_cons, run_app, E2, run_app, spawn_loop by done.
  reflexivity.
Qed.

End RunStart.

Section MoreClaims.

Context {T : Type}.
Implicit Types (s : Sys T) (ss : list (ScraperStrategy T)).

(** X6. A context that is already cancelled when the sink goroutine
    runs its [select] silences the engine: the callback is never called
    in the rest of the run, the sink never enters its loop, and an
    extraction that has an item to push waits for ever at its send. *)
Theorem cancelled_sink_never_delivers ss d sched0 s sched s' :
  run sched0 (boot (NewScraper ss d)) = Some s ->
  sinkG s = S_Select -> cancelled s = true ->
  run sched s = Some s' ->
  callbacks (trace s') = [] /\
  (sinkG s' = S_Select \/ sinkG s' = S_Exit) /\
  (forall tid sc u x rest,
     pool s' !! tid = Some (TExt sc u (E_Send (x :: rest))) ->
     step s' (ATask tid) = None).
Proof.
  intros Hr Hk Hc H. pose proof (reachable_inv _ _ _ _ Hr) as I.
  pose proof (run_inv _ _ _ _ _ I H) as I'.
  assert (callbacks (trace s) = []) as Hcb.
  { eapply (before_loop_run ss d sched0); [apply boot_inv|done|done|].
    by rewrite Hk. }
  destruct (dead_sink_run ss d sched s s' I Hc (or_introl Hk) H)
    as (_ & Hk' & Hcb').
  split; [by rewrite Hcb'|]. split; [done|].
  intros tid sc u x rest Hl.
  rewrite (ext_step_ok _ _ _ _ _ _ _ I' Hl). simpl.
  rewrite (ext_ch_open _ _ _ _ _ _ _ I' Hl) by done.
  by destruct Hk' as [-> | ->].
Qed.

(** X7. A zero or negative [requestDelay] is no delay: the dispatcher
    never sleeps, and after a launch it goes straight on to the next URL
    of the job. *)
Theorem no_delay_no_sleep ss d sched s :
  d <= 0 ->
  run sched (boot (NewScraper ss d)) = Some s ->
  (forall wake j rest, dispG s <> D_Sleep wake j rest) /\
  (forall j rest, dispG s = D_Delay j rest ->
     step s ADisp = Some (with_disp (D_Loop j rest) s)).
Proof.
  intros Hd Hr. pose proof (reachable_inv _ _ _ _ Hr) as I. split.
  - eapply (no_sleep_run ss d sched); [done|apply boot_inv|done|done].
  - intros j rest Ed. unfold step, disp_step.
    rewrite (inv_alive _ _ _ I), Ed, (inv_delay _ _ _ I).
    destruct (Z.ltb_spec 0 d); [lia|done].
Qed.

(** X8. What the wait group is left with: when [Run] is in [Wait], the
    dispatcher holds no URL and every goroutine has finished, the counter
    is the number of walkers that ran, one unit of line 109 for each. *)
Theorem counter_ends_at_walker_count ss d sched s :
  run sched (boot (NewScraper ss d)) = Some s ->
  mainG s = M_Wait -> disp_units (dispG s) = 0 ->
  Forall (fun t => finished t = true) (pool s) ->
  wg (eng s) = sum_over is_walk (pool s) /\
  Z.of_nat (length ss) <= wg (eng s).
Proof.
  intros Hr Hm Hd Hf. pose proof (reachable_inv _ _ _ _ Hr) as I.
  pose proof (inv_units _ _ _ I) as Hu.
  pose proof (inv_walkers _ _ _ I) as Hw.
  rewrite Hm, Hd, (finished_units _ Hf) in Hu. rewrite Hm in Hw.
  simpl in *. lia.
Qed.

(** X9. [Run] up to [Wait]: after its first three statements and one
    turn of the loop of line 138 per strategy, the counter is the number
    of strategies, the dispatcher and the sink are started, and the pool
    is one walker per strategy, in order, each before its [GetUrls];
    nothing is marked and nothing has been called. *)
Theorem Run_starts_one_walker_per_strategy ss d :
  run (repeat AMain (3 + length ss)) (boot (NewScraper ss d)) =
  Some {| eng := set_wg (Z.of_nat (length ss)) (NewScraper ss d);
          mainG := M_Wait; dispG := D_Recv; sinkG := S_Select;
          pool := seed_walkers ss;
          cancelled := false; now := 0; trace := []; crashed := false |}.
Proof. apply main_to_wait. Qed.

End MoreClaims.

Section DispatcherAlone.

Context {T : Type}.
Implicit Types (s : Sys T) (p : list (task T)) (t : task T).
Variable ss : list (ScraperStrategy T).
Variable d : Z.

(** One URL of a job: the launch, the test of the delay and, with a
    delay, the sleep. *)
Lemma drain_one sc u rest s :
  Inv ss d s -> dispG s = D_Loop sc (u :: rest) ->
  run (if 0 <? d then [ADisp; ADisp; ATick d; ADisp] else [ADisp; ADisp]) s =
  Some (with_disp (D_Loop sc rest)
          (with_now (if 0 <? d then now s + d else now s)
             (emit (EvLaunch (length (pool s)) u (now s))
                (spawn (TExt sc u E_Check) s)))).
Proof.
  intros I Ed. pose proof (inv_alive _ _ _ I) as Hc.
  pose proof (inv_delay _ _ _ I) as Hdel.
  set (s1 := with_disp (D_Delay sc rest)
               (emit (EvLaunch (length (pool s)) u (now s))
                  (spawn (TExt sc u E_Check) s))).
  assert (step s ADisp = Some s1) as E1
    by (unfold step, disp_step; by rewrite Hc, Ed).
  destruct (0 <? d) eqn:E.
  - apply Z.ltb_lt in E as E'.
    set (s2 := with_disp (D_Sleep (now s + d) sc rest) s1).
    assert (step s1 ADisp = Some s2) as E2.
    { unfold step, disp_step, s1.
      cbn [crashed dispG eng now with_disp emit spawn with_pool].
      by rewrite Hc, Hdel, E. }
    set (s3 := with_now (now s + d) s2).
    assert (step s2 (ATick d) = Some s3) as E3.
    { unfold step, s2, s1.
      cbn [crashed dispG eng now with_disp emit spawn with_pool].
      rewrite Hc. destruct (Z.leb_spec 0 d); [done|lia]. }
    assert (step s3 ADisp = Some (with_disp (D_Loop sc rest) s3)) as E4.
    { unfold step, disp_step, s3, s2, s1.
      cbn [crashed dispG eng now with_disp with_now emit spawn with_pool].
      rewrite Hc. destruct (Z.leb_spec (now s + d) (now s + d)); [done|lia]. }
    cbn [run]. rewrite E1, E2, E3, E4. done.
  - set (s2 := with_disp (D_Loop sc rest) s1).
    assert (step s1 ADisp = Some s2) as E2.
    { unfold step, disp_step, s1.
      cbn [crashed dispG eng now with_disp emit spawn with_pool].
      by rewrite Hc, Hdel, E. }
    cbn [run]. rewrite E1, E2. done.
Qed.

Lemma drain_job sc : forall us s,
  Inv ss d s -> dispG s = D_Loop sc us ->
  exists s',
    run (drain d (length us)) s = Some s' /\
    dispG s' = D_Recv /\
    pool s' = pool s ++ job_extractions sc us /\
    eng s' = eng s /\ mainG s' = mainG s /\ sinkG s' = sinkG s /\
    cancelled s' = cancelled s /\
    callbacks (trace s') = callbacks (trace s) /\
    extractor_calls (trace s') = extractor_calls (trace s) /\
    walked (trace s') = walked (trace s) /\
    extracted (trace s') = extracted (trace s) /\
    length (launch_times (trace s')) =
      (length (launch_times (trace s)) + length us)%nat.
Proof.
  induction us as [|u rest IH]; intros s I Ed.
  - exists (with_disp D_Recv s). simpl. unfold step, disp_step.
    rewrite (inv_alive _ _ _ I), Ed. simpl. rewrite app_nil_r.
    repeat split; try done; lia.
  - simpl drain. rewrite run_app.
    pose proof (drain_one sc u rest s I Ed) as E1. rewrite E1.
    match type of E1 with _ = Some ?x => set (s1 := x) in * end.
    assert (Inv ss d s1) as I1 by (eapply run_inv; [exact I|exact E1]).
    destruct (IH s1 I1 eq_refl)
      as (s' & Hr & Hd & Hp & He & Hm & Hk & Hca & Hcb & Hx & Hwk & Hex & Hn).
    exists s'. split; [done|]. split; [done|].
    split. { rewrite Hp. simpl. by rewrite <- app_assoc. }
    repeat split; try done; try congruence.
    rewrite Hn. simpl. lia.
Qed.

End DispatcherAlone.

Section MoreClaims2.

Context {T : Type}.
Implicit Types (s : Sys T) (ss : list (ScraperStrategy T)).

(** X10. The dispatcher on a job, lines 63-83: left to itself (and to
    the clock, when there is a delay) it launches one extraction per item
    URL of the job, in the order of the job and each before line 68, and
    comes back to its receive; it calls neither the extractor nor the
    callback and changes neither the counter nor the visited set. *)
Theorem dispatcher_launches_each_url ss d sched s sc us :
  run sched (boot (NewScraper ss d)) = Some s ->
  dispG s = D_Loop sc us ->
  exists s',
    run (drain d (length us)) s = Some s' /\
    dispG s' = D_Recv /\
    pool s' = pool s ++ job_extractions sc us /\
    eng s' = eng s /\ mainG s' = mainG s /\ sinkG s' = sinkG s /\
    cancelled s' = cancelled s /\
    callbacks (trace s') = callbacks (trace s) /\
    extractor_calls (trace s') = extractor_calls (trace s) /\
    walked (trace s') = walked (trace s) /\
    extracted (trace s') = extracted (trace s) /\
    length (launch_times (trace s')) =
      (length (launch_times (trace s)) + length us)%nat.
Proof.
  intros Hr Ed. pose proof (reachable_inv _ _ _ _ Hr) as I.
  by apply (drain_job ss d).
Qed.

End MoreClaims2.

Section WalkerAlone.

Context {T : Type}.
Implicit Types (s : Sys T) (p : list (task T)) (t : task T).
Variable ss : list (ScraperStrategy T).
Variable d : Z.

Lemma walk_step_ok s tid sc url pc :
  Inv ss d s -> pool s !! tid = Some (TWalk sc url pc) ->
  step s (ATask tid) = walk_step tid sc url pc s.
Proof.
  intros I Hl. unfold step, task_step. by rewrite (inv_alive _ _ _ I), Hl.
Qed.

Lemma walk_done_ok s tid sc url pc :
  Inv ss d s -> pool s !! tid = Some (TWalk sc url pc) ->
  wg_done tid s =
  emit (EvDone tid) (with_eng (set_wg (wg (eng s) - 1) (eng s)) s).
Proof.
  intros I Hl. pose proof (units_le_wg ss d s tid _ I Hl) as Hu.
  unfold wg_done. destruct (Z.ltb_spec (wg (eng s) - 1) 0); [|done].
  destruct pc; simpl in Hu; lia.
Qed.

Lemma scraped_lookup (e : Scraper T) u :
  scraped u e = match scrapedUrls e !! u with Some _ => true | None => false end.
Proof. done. Qed.

(** Lines 115-125 and the deferred [Done], with nobody else moving. *)
Lemma walker_loop tid sc url : forall next s,
  Inv ss d s -> pool s !! tid = Some (TWalk sc url (W_Loop next)) ->
  exists s',
    run (repeat (ATask tid) (loop_steps (scrapedUrls (eng s)) next)) s = Some s' /\
    pool s' = <[tid := TWalk sc url W_Finished]> (pool s)
              ++ map (fun c => TWalk sc c W_GetUrls)
                   (loop_children (scrapedUrls (eng s)) next) /\
    scrapedUrls (eng s') = loop_marks (scrapedUrls (eng s)) next /\
    wg (eng s') =
      wg (eng s) + Z.of_nat (length (loop_children (scrapedUrls (eng s)) next)) - 1 /\
    dispG s' = dispG s /\ mainG s' = mainG s /\ sinkG s' = sinkG s /\
    cancelled s' = cancelled s /\
    callbacks (trace s') = callbacks (trace s) /\
    walked (trace s') = walked (trace s) /\
    extracted (trace s') = extracted (trace s).
Proof.
  induction next as [|u rest IH]; intros s I Hl.
  - cbn [loop_steps loop_children loop_marks repeat run].
    rewrite (walk_step_ok _ _ _ _ _ I Hl). cbn [walk_step].
    rewrite (walk_done_ok _ _ _ _ _ I Hl).
    eexists. split; [done|]. simpl. rewrite app_nil_r.
    repeat split; try done; lia.
  - pose proof (lookup_lt_Some _ _ _ Hl) as Hlt.
    cbn [loop_steps loop_children loop_marks].
    destruct (scrapedUrls (eng s) !! u) as [b|] eqn:Eu.
    + cbn [repeat run]. rewrite (walk_step_ok _ _ _ _ _ I Hl).
      cbn [walk_step]. rewrite scraped_lookup, Eu.
      set (s1 := set_task tid (TWalk sc url (W_Loop rest)) s).
      assert (step s (ATask tid) = Some s1) as E1.
      { rewrite (walk_step_ok _ _ _ _ _ I Hl). cbn [walk_step].
        by rewrite scraped_lookup, Eu. }
      assert (Inv ss d s1) as I1 by (eapply step_inv; [exact I|exact E1]).
      destruct (IH s1 I1) as (s' & Hr & Hp & Hrest).
      { simpl. by apply list_lookup_insert_eq. }
      exists s'. split; [done|]. split; [|done].
      rewrite Hp. simpl. by rewrite list_insert_insert_eq.
    + set (s1 := set_task tid (TWalk sc url (W_AddChild u rest)) s).
      assert (step s (ATask tid) = Some s1) as E1.
      { rewrite (walk_step_ok _ _ _ _ _ I Hl). cbn [walk_step].
        by rewrite scraped_lookup, Eu. }
      assert (Inv ss d s1) as I1 by (eapply step_inv; [exact I|exact E1]).
      assert (pool s1 !! tid = Some (TWalk sc url (W_AddChild u rest))) as Hl1
        by (simpl; by apply list_lookup_insert_eq).
      set (s2 := set_task tid (TWalk sc url (W_MarkChild u rest)) (wg_add 1 s1)).
      assert (step s1 (ATask tid) = Some s2) as E2
        by (by rewrite (walk_step_ok _ _ _ _ _ I1 Hl1)).
      assert (Inv ss d s2) as I2 by (eapply step_inv; [exact I1|exact E2]).
      assert (pool s2 !! tid = Some (TWalk sc url (W_MarkChild u rest))) as Hl2.
      { simpl. apply list_lookup_insert_eq. by rewrite length_insert. }
      set (s3 := set_task tid (TWalk sc url (W_Spawn u rest))
                   (with_eng (mark u (eng s2)) s2)).
      assert (step s2 (ATask tid) = Some s3) as E3
        by (by rewrite (walk_step_ok _ _ _ _ _ I2 Hl2)).
      assert (Inv ss d s3) as I3 by (eapply step_inv; [exact I2|exact E3]).
      assert (pool s3 !! tid = Some (TWalk sc url (W_Spawn u rest))) as Hl3.
      { simpl. apply list_lookup_insert_eq. by rewrite !length_insert. }
      set (s4 := set_task tid (TWalk sc url (W_Loop rest))
                   (spawn (TWalk sc u W_GetUrls) s3)).
      assert (step s3 (ATask tid) = Some s4) as E4
        by (by rewrite (walk_step_ok _ _ _ _ _ I3 Hl3)).
      assert (Inv ss d s4) as I4 by (eapply step_inv; [exact I3|exact E4]).
      destruct (IH s4 I4) as (s' & Hr & Hp & Hm & Hw & Hrest).
      { simpl. apply list_lookup_insert_eq.
        rewrite length_app, !length_insert. lia. }
      exists s'. split.
      { cbn [Nat.add repeat run]. rewrite E1, E2, E3, E4. exact Hr. }
      split.
      { rewrite Hp. simpl.
        rewrite list_insert_insert_eq.
        rewrite insert_app_l by (rewrite !length_insert; lia).
        rewrite !list_insert_insert_eq. by rewrite <- app_assoc. }
      split; [exact Hm|]. split; [|exact Hrest].
      rewrite Hw. simpl. lia.
Qed.

(** Lines 106-112, with the dispatcher at its receive. *)
Lemma walker_head tid sc url s :
  Inv ss d s -> pool s !! tid = Some (TWalk sc url W_GetUrls) ->
  dispG s = D_Recv ->
  exists s5,
    run (repeat (ATask tid) 5) s = Some s5 /\ Inv ss d s5 /\
    pool s5 = <[tid := TWalk sc url (W_Loop (GetUrls sc (cancelled s) url).2)]>
                (pool s) /\
    scrapedUrls (eng s5) = <[url := true]> (scrapedUrls (eng s)) /\
    wg (eng s5) =
      wg (eng s) + Z.of_nat (length (GetUrls sc (cancelled s) url).1) + 1 /\
    dispG s5 = D_Loop sc (GetUrls sc (cancelled s) url).1 /\
    mainG s5 = mainG s /\ sinkG s5 = sinkG s /\
    cancelled s5 = cancelled s /\
    callbacks (trace s5) = callbacks (trace s) /\
    walked (trace s5) = url :: walked (trace s) /\
    extracted (trace s5) = extracted (trace s).
Proof.
  intros I Hl Ed. pose proof (lookup_lt_Some _ _ _ Hl) as Hlt.
  set (us := (GetUrls sc (cancelled s) url).1).
  set (nx := (GetUrls sc (cancelled s) url).2).
  set (s1 := set_task tid (TWalk sc url (W_Mark us nx)) (emit (EvGetUrls tid url) s)).
  assert (step s (ATask tid) = Some s1) as E1
    by (by rewrite (walk_step_ok _ _ _ _ _ I Hl)).
  assert (Inv ss d s1) as I1 by (eapply step_inv; [exact I|exact E1]).
  assert (pool s1 !! tid = Some (TWalk sc url (W_Mark us nx))) as Hl1
    by (simpl; by apply list_lookup_insert_eq).
  set (s2 := set_task tid (TWalk sc url (W_AddUrls us nx))
               (with_eng (mark url (eng s1)) s1)).
  assert (step s1 (ATask tid) = Some s2) as E2
    by (by rewrite (walk_step_ok _ _ _ _ _ I1 Hl1)).
  assert (Inv ss d s2) as I2 by (eapply step_inv; [exact I1|exact E2]).
  assert (pool s2 !! tid = Some (TWalk sc url (W_AddUrls us nx))) as Hl2.
  { simpl. apply list_lookup_insert_eq. by rewrite length_insert. }
  set (s3 := set_task tid (TWalk sc url (W_Add1 us nx))
               (wg_add (Z.of_nat (length us)) s2)).
  assert (step s2 (ATask tid) = Some s3) as E3
    by (by rewrite (walk_step_ok _ _ _ _ _ I2 Hl2)).
  assert (Inv ss d s3) as I3 by (eapply step_inv; [exact I2|exact E3]).
  assert (pool s3 !! tid = Some (TWalk sc url (W_Add1 us nx))) as Hl3.
  { simpl. apply list_lookup_insert_eq. by rewrite !length_insert. }
  set (s4 := set_task tid (TWalk sc url (W_Send us nx)) (wg_add 1 s3)).
  assert (step s3 (ATask tid) = Some s4) as E4
    by (by rewrite (walk_step_ok _ _ _ _ _ I3 Hl3)).
  assert (Inv ss d s4) as I4 by (eapply step_inv; [exact I3|exact E4]).
  assert (pool s4 !! tid = Some (TWalk sc url (W_Send us nx))) as Hl4.
  { simpl. apply list_lookup_insert_eq. by rewrite !length_insert. }
  assert (jobs (eng s4) = Open) as Hj.
  { apply (no_panic_jobs ss d s4 I4).
    eapply busy_not_waited; [done..|]. simpl. lia. }
  set (s5 := set_task tid (TWalk sc url (W_Loop nx))
               (with_disp (D_Loop sc us) s4)).
  assert (step s4 (ATask tid) = Some s5) as E5.
  { rewrite (walk_step_ok _ _ _ _ _ I4 Hl4). cbn [walk_step].
    rewrite Hj. replace (dispG s4) with (dispG s) by done. by rewrite Ed. }
  assert (Inv ss d s5) as I5 by (eapply step_inv; [exact I4|exact E5]).
  exists s5. split.
  { cbn [repeat run]. by rewrite E1, E2, E3, E4, E5. }
  split; [done|]. split.
  { simpl. by rewrite !list_insert_insert_eq. }
  repeat split; try done; simpl; lia.
Qed.

Lemma walker_alone tid sc url s :
  Inv ss d s -> pool s !! tid = Some (TWalk sc url W_GetUrls) ->
  dispG s = D_Recv ->
  exists s',
    run (repeat (ATask tid)
           (5 + loop_steps (<[url := true]> (scrapedUrls (eng s)))
                  (GetUrls sc (cancelled s) url).2)) s = Some s' /\
    pool s' = <[tid := TWalk sc url W_Finished]> (pool s)
              ++ map (fun c => TWalk sc c W_GetUrls)
                   (loop_children (<[url := true]> (scrapedUrls (eng s)))
                      (GetUrls sc (cancelled s) url).2) /\
    scrapedUrls (eng s') =
      loop_marks (<[url := true]> (scrapedUrls (eng s)))
        (GetUrls sc (cancelled s) url).2 /\
    wg (eng s') =
      wg (eng s) + Z.of_nat (length (GetUrls sc (cancelled s) url).1)
      + Z.of_nat (length (loop_children (<[url := true]> (scrapedUrls (eng s)))
                            (GetUrls sc (cancelled s) url).2)) /\
    dispG s' = D_Loop sc (GetUrls sc (cancelled s) url).1 /\
    mainG s' = mainG s /\ sinkG s' = sinkG s /\
    cancelled s' = cancelled s /\
    callbacks (trace s') = callbacks (trace s) /\
    walked (trace s') = url :: walked (trace s) /\
    extracted (trace s') = extracted (trace s).
Proof.
  intros I Hl Ed. pose proof (lookup_lt_Some _ _ _ Hl) as Hlt.
  destruct (walker_head tid sc url s I Hl Ed)
    as (s5 & R5 & I5 & P5 & M5 & W5 & D5 & Ma5 & K5 & Ca5 & C5 & Wk5 & X5).
  destruct (walker_loop tid sc url (GetUrls sc (cancelled s) url).2 s5 I5)
    as (s' & R & P & M & W & D & Ma & K & Ca & C & Wk & X).
  { rewrite P5. by apply list_lookup_insert_eq. }
  exists s'. split.
  { rewrite repeat_app, run_app, R5. by rewrite <- M5. }
  rewrite M5 in P, M, W.
  split. { rewrite P, P5. by rewrite list_insert_insert_eq. }
  split; [done|]. split; [rewrite W, W5; lia|].
  repeat split; congruence.
Qed.

End WalkerAlone.

Section MoreClaims3.

Context {T : Type}.
Implicit Types (s : Sys T) (ss : list (ScraperStrategy T)).

(** X11. [runScraper] on its own, lines 102-126: with the dispatcher at
    its receive and nobody else moving, a walker calls [GetUrls] once on
    its page, marks the page, hands the item URLs to the dispatcher as
    one job, starts one child walker for each next page that
    [loop_children] keeps, leaves the visited set at [loop_marks], and
    returns. The counter ends higher by one unit per item URL and one
    per child: its own unit is given back, that of line 109 is not. *)
Theorem runScraper_alone ss d sched s tid sc url :
  run sched (boot (NewScraper ss d)) = Some s ->
  pool s !! tid = Some (TWalk sc url W_GetUrls) ->
  dispG s = D_Recv ->
  exists s',
    run (repeat (ATask tid)
           (5 + loop_steps (<[url := true]> (scrapedUrls (eng s)))
                  (GetUrls sc (cancelled s) url).2)) s = Some s' /\
    pool s' = <[tid := TWalk sc url W_Finished]> (pool s)
              ++ map (fun c => TWalk sc c W_GetUrls)
                   (loop_children (<[url := true]> (scrapedUrls (eng s)))
                      (GetUrls sc (cancelled s) url).2) /\
    scrapedUrls (eng s') =
      loop_marks (<[url := true]> (scrapedUrls (eng s)))
        (GetUrls sc (cancelled s) url).2 /\
    wg (eng s') =
      wg (eng s) + Z.of_nat (length (GetUrls sc (cancelled s) url).1)
      + Z.of_nat (length (loop_children (<[url := true]> (scrapedUrls (eng s)))
                            (GetUrls sc (cancelled s) url).2)) /\
    dispG s' = D_Loop sc (GetUrls sc (cancelled s) url).1 /\
    mainG s' = mainG s /\ sinkG s' = sinkG s /\
    cancelled s' = cancelled s /\
    callbacks (trace s') = callbacks (trace s) /\
    walked (trace s') = url :: walked (trace s) /\
    extracted (trace s') = extracted (trace s).
Proof.
  intros Hr Hl Ed. pose proof (reachable_inv _ _ _ _ Hr) as I.
  by apply (walker_alone ss d).
Qed.

(** X12. The next pages one walker starts children for, when nobody
    interferes: each is listed by the page and was not in the visited
    set, none is started twice however often the page lists it, and
    after the loop every next page of the list is in the visited set,
    together with what was there before. *)
Theorem loop_children_fresh_and_distinct (m : gmap string bool)
    (next : list string) :
  NoDup (loop_children m next) /\
  (forall c, c ∈ loop_children m next <-> c ∈ next /\ m !! c = None) /\
  (forall x, is_Some (loop_marks m next !! x) <->
             is_Some (m !! x) \/ x ∈ next).
Proof.
  revert m. induction next as [|u rest IH]; intros m; simpl.
  - split; [constructor|]. split.
    + intros c. rewrite !elem_of_nil. tauto.
    + intros x. rewrite elem_of_nil. tauto.
  - destruct (m !! u) as [b|] eqn:Eu.
    + destruct (IH m) as (Hn & Hc & Hm). split; [done|]. split.
      * intros c. rewrite Hc, elem_of_cons. split; [tauto|].
        intros [[->|?] Hnone]; [congruence|done].
      * intros x. rewrite Hm, elem_of_cons. split; [tauto|].
        intros [?|[->|?]]; auto; left; by rewrite Eu.
    + destruct (IH (<[u := true]> m)) as (Hn & Hc & Hm). split; [|split].
      * apply NoDup_cons. split; [|done]. rewrite Hc.
        intros [_ Hnone]. by rewrite lookup_insert_eq in Hnone.
      * intros c. rewrite !elem_of_cons, Hc. split.
        -- intros [->|[Hin Hnone]]; [auto|].
           destruct (decide (u = c)) as [->|Hne].
           ++ by rewrite lookup_insert_eq in Hnone.
           ++ rewrite lookup_insert_ne in Hnone by done. auto.
        -- intros [[->|Hin] Hnone]; [auto|].
           destruct (decide (u = c)) as [->|Hne]; [auto|].
           right. split; [done|]. by rewrite lookup_insert_ne.
      * intros x. rewrite Hm, elem_of_cons.
        destruct (decide (u = x)) as [->|Hne].
        -- rewrite lookup_insert_eq. split; [auto|]. intros _. left. eauto.
        -- rewrite lookup_insert_ne by done. split; [tauto|].
           intros [?|[E|?]]; auto. by destruct Hne.
Qed.

End MoreClaims3.

Section Provenance.

Context {T : Type}.
Implicit Types (s : Sys T) (p : list (task T)) (t : task T).
Variable ss : list (ScraperStrategy T).
Variable d : Z.

Lemma task_prov_mono tr tr' t :
  (forall u, In u (extracted tr) -> In u (extracted tr')) ->
  task_prov ss tr t -> task_prov ss tr' t.
Proof.
  intros Hm. destruct t as [|sc u pc]; [done|]. simpl.
  intros [? Hp]. split; [done|]. destruct pc; try done.
  destruct Hp as [? ?]. auto.
Qed.

Lemma produced_mono tr tr' (x : T) :
  (forall u, In u (extracted tr) -> In u (extracted tr')) ->
  produced ss tr x -> produced ss tr' x.
Proof. intros Hm (st & b & u & ? & ? & ?). exists st, b, u. auto. Qed.

Lemma pool_prov_mono tr tr' p :
  (forall u, In u (extracted tr) -> In u (extracted tr')) ->
  Forall (task_prov ss tr) p -> Forall (task_prov ss tr') p.
Proof.
  intros Hm HF. eapply Forall_impl; [exact HF|].
  intros t. by apply task_prov_mono.
Qed.

Lemma wg_done_extracted tid s :
  extracted (trace (wg_done tid s)) = extracted (trace s).
Proof. unfold wg_done. by case_match. Qed.

Lemma wg_done_callbacks tid s :
  callbacks (trace (wg_done tid s)) = callbacks (trace s).
Proof. unfold wg_done. by case_match. Qed.

Lemma wg_done_frame tid s :
  sinkG (wg_done tid s) = sinkG s /\ dispG (wg_done tid s) = dispG s /\
  mainG (wg_done tid s) = mainG s.
Proof. unfold wg_done. by case_match. Qed.

Lemma prov_same s s' :
  ProvInv ss s ->
  extracted (trace s') = extracted (trace s) ->
  callbacks (trace s') = callbacks (trace s) ->
  sinkG s' = sinkG s -> dispG s' = dispG s -> mainG s' = mainG s ->
  Forall (task_prov ss (trace s)) (pool s') ->
  ProvInv ss s'.
Proof.
  intros (Hp & Hk & Hc & Hd & Hm) Ex Cb Ek Ed Em HF.
  assert (forall u, In u (extracted (trace s)) -> In u (extracted (trace s')))
    as Hmono by (by rewrite Ex).
  unfold ProvInv. rewrite Cb, Ek, Ed, Em.
  split; [by eapply pool_prov_mono|].
  split; [intros x Hx; eapply produced_mono; eauto|].
  split; [intros x Hx; eapply produced_mono; eauto|]. done.
Qed.

Lemma prov_step s a s' :
  Inv ss d s -> ProvInv ss s -> step s a = Some s' -> ProvInv ss s'.
Proof.
  intros I P H. pose proof P as (Hp & Hk & Hc & Hd & Hm).
  unfold step in H. rewrite (inv_alive _ _ _ I) in H.
  destruct a as [| | |tid| |dt].
  - unfold main_step in H.
    destruct (mainG s) as [| |[|st rest]| | | |] eqn:Em; repeat case_match;
      simplify_eq; try (by eapply prov_same).
    all: unfold ProvInv; simpl; repeat split; try done.
    + intros rest st E. simplify_eq. by rewrite (inv_strategy _ _ _ I).
    + apply Forall_app. split; [done|]. repeat constructor. simpl.
      apply in_map. eapply Hm; [done|]. by left.
    + intros rest' st' E Hin. simplify_eq. eapply Hm; [done|]. by right.
  - unfold disp_step in H.
    destruct (dispG s) as [| |sc [|u rest]|sc rest|wake sc rest|] eqn:Ed;
      repeat case_match; simplify_eq; unfold ProvInv; simpl;
      repeat split; try done.
    all: try (intros j E; simplify_eq; by apply Hd).
    apply Forall_app. split.
    + eapply pool_prov_mono; [|exact Hp]. by intros.
    + repeat constructor. by apply Hd.
  - unfold sink_step in H.
    destruct (sinkG s) as [| | |x|] eqn:Ek;
      repeat case_match; simplify_eq; unfold ProvInv; simpl;
      repeat split; try done.
    intros y [->|Hy]; [by apply Hk|by apply Hc].
  - unfold task_step in H.
    destruct (pool s !! tid) as [[sc u pc|sc u pc]|] eqn:Hl; [| |done].
    + pose proof (Forall_lookup_1 _ _ _ _ Hp Hl) as Ht. simpl in Ht.
      unfold walk_step in H.
      destruct pc as [|us nx|us nx|us nx|us nx|[|c rest]|c rest|c rest|c rest|];
        repeat case_match; simplify_eq.
      all: try (eapply prov_same; [done|simpl; by rewrite ?wg_done_extracted
                                   |simpl; by rewrite ?wg_done_callbacks
                                   |simpl; by rewrite ?(proj1 (wg_done_frame _ _))
                                   |simpl; by rewrite ?(proj1 (proj2 (wg_done_frame _ _)))
                                   |simpl; by rewrite ?(proj2 (proj2 (wg_done_frame _ _)))
                                   |simpl; rewrite ?wg_done_pool;
                                    by apply Forall_insert]).
      * unfold ProvInv. simpl. repeat split; try done.
        -- by apply Forall_insert.
        -- intros j E. by simplify_eq.
      * by eapply prov_same.
      * eapply prov_same; try done. simpl. apply Forall_insert; [|done].
        apply Forall_app. split; [done|]. by repeat constructor.
    + pose proof (Forall_lookup_1 _ _ _ _ Hp Hl) as Ht. simpl in Ht.
      destruct Ht as [Hsc Ht].
      unfold ext_step in H.
      destruct pc as [| |[|x rest]| |];
        repeat case_match; simplify_eq.
      all: try (eapply prov_same; [done|simpl; by rewrite ?wg_done_extracted
                                   |simpl; by rewrite ?wg_done_callbacks
                                   |simpl; by rewrite ?(proj1 (wg_done_frame _ _))
                                   |simpl; by rewrite ?(proj1 (proj2 (wg_done_frame _ _)))
                                   |simpl; by rewrite ?(proj2 (proj2 (wg_done_frame _ _)))
                                   |simpl; rewrite ?wg_done_pool;
                                    by apply Forall_insert]).
      * assert (forall v, In v (extracted (trace s)) ->
                          In v (u :: extracted (trace s))) as Hmono
          by (intros; by right).
        unfold ProvInv. simpl. split.
        { apply Forall_insert.
          - by eapply pool_prov_mono.
          - simpl. split; [done|]. split; [by left|]. by exists (cancelled s). }
        split; [intros y Hy; eapply produced_mono; eauto|].
        split; [intros y Hy; eapply produced_mono; eauto|]. done.
      * destruct Ht as [Hu [b Hb]].
        unfold ProvInv. simpl. split.
        { apply Forall_insert; [done|]. simpl. split; [done|].
          split; [done|]. exists b. intros y Hy. apply Hb. by right. }
        split; [|done]. intros y E. simplify_eq.
        apply in_map_iff in Hsc as (st & <- & Hst).
        exists st, b, u. split; [done|]. split; [done|]. apply Hb. by left.
      * by eapply prov_same.
  - simplify_eq. by eapply prov_same.
  - case_match; simplify_eq. by eapply prov_same.
Qed.

Lemma prov_run sched : forall s s',
  Inv ss d s -> ProvInv ss s -> run sched s = Some s' -> ProvInv ss s'.
Proof.
  induction sched as [|a sched IH]; intros s s' I P H; simpl in H.
  - by simplify_eq.
  - destruct (step s a) as [s1|] eqn:E; [|done].
    eapply IH; [| |done].
    + by eapply step_inv.
    + by eapply prov_step.
Qed.

End Provenance.

Section JobSend.

Context {T : Type}.
Implicit Types (s : Sys T) (p : list (task T)) (t : task T).
Variable ss : list (ScraperStrategy T).
Variable d : Z.

Lemma idle_step s a s' : IdleInv s -> step s a = Some s' -> IdleInv s'.
Proof.
  unfold IdleInv, step. intros N H. destruct (crashed s); [done|].
  destruct a as [| | |tid| |dt].
  - unfold main_step in H.
    destruct (mainG s) as [| |[|st rest]| | | |] eqn:Em;
      repeat case_match; simplify_eq; simpl; try done.
    all: intros Ed; destruct (N Ed) as [? [?|?]]; try done; auto.
  - unfold disp_step in H.
    destruct (dispG s); repeat case_match; simplify_eq; simpl; try done.
  - unfold sink_step in H. repeat case_match; simplify_eq; simpl; done.
  - intros Ed. unfold task_step, walk_step, ext_step, wg_done in H.
    destruct (dispG s) eqn:Ek.
    1: { destruct (N eq_refl) as [Hp _]. rewrite Hp in H. done. }
    all: repeat case_match; simplify_eq; simpl in *; try done; congruence.
  - by simplify_eq.
  - case_match; by simplify_eq.
Qed.

Lemma idle_run sched : forall s s',
  IdleInv s -> run sched s = Some s' -> IdleInv s'.
Proof.
  induction sched as [|a sched IH]; intros s s' N H; simpl in H.
  - by simplify_eq.
  - destruct (step s a) as [s1|] eqn:E; [|done].
    eapply IH; [|done]. by eapply idle_step.
Qed.

(** The dispatcher leaves its loop only when the jobs channel is closed. *)
Lemma exit_step s a s' :
  (dispG s = D_Exit -> jobs (eng s) = Closed) -> step s a = Some s' ->
  dispG s' = D_Exit -> jobs (eng s') = Closed.
Proof.
  unfold step. intros X H. destruct (crashed s); [done|].
  destruct a as [| | |tid| |dt].
  - unfold main_step in H.
    destruct (mainG s) as [| |[|? ?]| | | |];
      repeat case_match; simplify_eq; simpl; auto; done.
  - unfold disp_step in H.
    destruct (dispG s) eqn:Ek;
      repeat case_match; simplify_eq; simpl; auto; done.
  - unfold sink_step in H. repeat case_match; simplify_eq; simpl; auto.
  - unfold task_step, walk_step, ext_step, wg_done in H.
    repeat case_match; simplify_eq; simpl in *; auto; done.
  - simplify_eq. simpl. auto.
  - case_match; simplify_eq. simpl. auto.
Qed.

Lemma exit_run sched : forall s s',
  (dispG s = D_Exit -> jobs (eng s) = Closed) -> run sched s = Some s' ->
  dispG s' = D_Exit -> jobs (eng s') = Closed.
Proof.
  induction sched as [|a sched IH]; intros s s' X H; simpl in H.
  - by simplify_eq.
  - destruct (step s a) as [s1|] eqn:E; [|done].
    eapply IH; [|done]. by eapply exit_step.
Qed.

(** From anywhere in a job the dispatcher comes back to its receive. *)
Lemma settle_disp s :
  Inv ss d s -> dispG s <> D_Idle -> dispG s <> D_Exit ->
  exists s',
    run (settle d (now s) (dispG s)) s = Some s' /\ Inv ss d s' /\
    dispG s' = D_Recv /\
    (forall tid t, pool s !! tid = Some t -> pool s' !! tid = Some t) /\
    eng s' = eng s /\ sinkG s' = sinkG s /\ mainG s' = mainG s /\
    callbacks (trace s') = callbacks (trace s) /\
    extractor_calls (trace s') = extractor_calls (trace s).
Proof.
  intros I Hi Hx. pose proof (inv_alive _ _ _ I) as Hc.
  pose proof (inv_delay _ _ _ I) as Hdel.
  assert (forall s1, Inv ss d s1 -> forall sc us, dispG s1 = D_Loop sc us ->
            exists s',
              run (drain d (length us)) s1 = Some s' /\ Inv ss d s' /\
              dispG s' = D_Recv /\
              (forall tid t, pool s1 !! tid = Some t -> pool s' !! tid = Some t) /\
              eng s' = eng s1 /\ sinkG s' = sinkG s1 /\ mainG s' = mainG s1 /\
              callbacks (trace s') = callbacks (trace s1) /\
              extractor_calls (trace s') = extractor_calls (trace s1)) as Hdrain.
  { intros s1 I1 sc us Ed.
    destruct (drain_job ss d sc us s1 I1 Ed)
      as (s' & Hr & ? & Hp & ? & ? & ? & ? & ? & ? & _).
    exists s'. split; [done|]. split; [by eapply run_inv|].
    split; [done|]. split; [|done].
    intros tid t Hl. rewrite Hp. by apply lookup_app_l_Some. }
  destruct (dispG s) as [| |sc us|sc rest|wake sc rest|] eqn:Ed; try done.
  - exists s. split; [done|]. split; [exact I|]. split; [exact Ed|].
    repeat split; done.
  - exact (Hdrain s I sc us Ed).
  - cbn [settle]. rewrite run_app.
    destruct (0 <? d) eqn:E.
    + apply Z.ltb_lt in E as E'.
      set (s1 := with_disp (D_Sleep (now s + d) sc rest) s).
      assert (step s ADisp = Some s1) as E1
        by (unfold step, disp_step; by rewrite Hc, Ed, Hdel, E).
      set (s2 := with_now (now s + d) s1).
      assert (step s1 (ATick d) = Some s2) as E2.
      { unfold step, s1. cbn [crashed with_disp]. rewrite Hc.
        destruct (Z.leb_spec 0 d); [done|lia]. }
      set (s3 := with_disp (D_Loop sc rest) s2).
      assert (step s2 ADisp = Some s3) as E3.
      { unfold step, disp_step, s2, s1.
        cbn [crashed dispG now with_disp with_now]. rewrite Hc.
        destruct (Z.leb_spec (now s + d) (now s + d)); [done|lia]. }
      assert (Inv ss d s3) as I3.
      { eapply step_inv; [|exact E3]. eapply step_inv; [|exact E2].
        eapply step_inv; [exact I|exact E1]. }
      cbn [run]. rewrite E1, E2, E3.
      by apply (Hdrain s3 I3 sc rest).
    + set (s1 := with_disp (D_Loop sc rest) s).
      assert (step s ADisp = Some s1) as E1
        by (unfold step, disp_step; by rewrite Hc, Ed, Hdel, E).
      assert (Inv ss d s1) as I1 by (eapply step_inv; [exact I|exact E1]).
      cbn [run]. rewrite E1. by apply (Hdrain s1 I1 sc rest).
  - cbn [settle]. rewrite run_app.
    set (s1 := with_now (now s + Z.max 0 (wake - now s)) s).
    assert (step s (ATick (Z.max 0 (wake - now s))) = Some s1) as E1.
    { unfold step. rewrite Hc.
      destruct (Z.leb_spec 0 (Z.max 0 (wake - now s))); [done|lia]. }
    set (s2 := with_disp (D_Loop sc rest) s1).
    assert (step s1 ADisp = Some s2) as E2.
    { unfold step, disp_step, s1. cbn [crashed dispG now with_now].
      rewrite Hc, Ed.
      destruct (Z.leb_spec wake (now s + Z.max 0 (wake - now s))); [done|lia]. }
    assert (Inv ss d s2) as I2.
    { eapply step_inv; [|exact E2]. eapply step_inv; [exact I|exact E1]. }
    cbn [run]. rewrite E1, E2. by apply (Hdrain s2 I2 sc rest).
Qed.

End JobSend.

Section MoreClaims4.

Context {T : Type}.
Implicit Types (s : Sys T) (ss : list (ScraperStrategy T)).

(** X13. The callback only receives what an extractor pushed: every item
    handed to the callback is among the items that [GetData] of the
    scraper of one of the strategies pushes for a URL on which [GetData]
    was called in the run. *)
Theorem callback_items_come_from_GetData ss d sched s x :
  run sched (boot (NewScraper ss d)) = Some s ->
  In x (callbacks (trace s)) ->
  exists st b u,
    In st ss /\ In u (extracted (trace s)) /\
    In x (GetData (StrategyScraper st) b u).
Proof.
  intros Hr Hx.
  assert (ProvInv ss s) as (_ & _ & Hc & _).
  { eapply (prov_run ss d sched); [apply boot_inv| |done].
    unfold ProvInv. simpl. repeat split; done. }
  by apply Hc.
Qed.

(** X14. The job send of line 112 cannot be blocked for ever by the
    dispatcher: whenever a walker stands at the send, the dispatcher,
    left to itself and to the clock, finishes the job it is working on
    and comes back to its receive, and then the send goes through and
    hands it the walker's item URLs. *)
Theorem job_send_eventually_enabled ss d sched s tid sc url us nx :
  run sched (boot (NewScraper ss d)) = Some s ->
  pool s !! tid = Some (TWalk sc url (W_Send us nx)) ->
  exists s',
    run (settle d (now s) (dispG s)) s = Some s' /\
    dispG s' = D_Recv /\
    pool s' !! tid = Some (TWalk sc url (W_Send us nx)) /\
    step s' (ATask tid) =
    Some (set_task tid (TWalk sc url (W_Loop nx))
            (with_disp (D_Loop sc us) s')).
Proof.
  intros Hr Hl. pose proof (reachable_inv _ _ _ _ Hr) as I.
  assert (IdleInv s) as N.
  { eapply idle_run; [|done]. intros _. split; [done|by left]. }
  assert (past_wait (mainG s) = false) as Hnw.
  { eapply busy_not_waited; [done..|]. simpl. lia. }
  destruct (settle_disp ss d s I) as (s' & R & I' & Ed & Hp & _).
  - intros Ed. destruct (N Ed) as [Hp _]. by rewrite Hp in Hl.
  - intros Ed. pose proof (no_panic_jobs ss d s I Hnw) as Ho.
    assert (jobs (eng s) = Closed) as Hcl.
    { eapply (exit_run sched); [|done|done]. simpl. done. }
    by rewrite Hcl in Ho.
  - exists s'. split; [done|]. split; [done|].
    pose proof (Hp _ _ Hl) as Hl'. split; [done|].
    assert (past_wait (mainG s') = false) as Hnw'.
    { eapply busy_not_waited; [done..|]. simpl. lia. }
    unfold step, task_step. rewrite (inv_alive _ _ _ I'), Hl'.
    cbn [walk_step]. rewrite (no_panic_jobs ss d s' I' Hnw'), Ed. done.
Qed.

End MoreClaims4.

Section ExtractionAlone.

Context {T : Type}.
Implicit Types (s : Sys T) (p : list (task T)) (t : task T).
Variable ss : list (ScraperStrategy T).
Variable d : Z.

(** Inside [GetData], with the sink in its loop and nobody else moving. *)
Lemma ext_push_all tid sc u : forall items s,
  Inv ss d s -> pool s !! tid = Some (TExt sc u (E_Send items)) ->
  sinkG s = S_Loop ->
  exists s',
    run (push_all tid (length items)) s = Some s' /\ Inv ss d s' /\
    pool s' = <[tid := TExt sc u E_Finished]> (pool s) /\
    scrapedUrls (eng s') = <[u := true]> (scrapedUrls (eng s)) /\
    wg (eng s') = wg (eng s) - 1 /\
    sinkG s' = S_Loop /\ dispG s' = dispG s /\ mainG s' = mainG s /\
    cancelled s' = cancelled s /\
    callbacks (trace s') = rev items ++ callbacks (trace s) /\
    walked (trace s') = walked (trace s) /\
    extracted (trace s') = extracted (trace s).
Proof.
  induction items as [|x items IH]; intros s I Hl Hk.
  - pose proof (lookup_lt_Some _ _ _ Hl) as Hlt.
    set (s1 := set_task tid (TExt sc u E_Done) (with_eng (mark u (eng s)) s)).
    assert (step s (ATask tid) = Some s1) as E1
      by (by rewrite (ext_step_ok _ _ _ _ _ _ _ I Hl)).
    assert (Inv ss d s1) as I1 by (eapply step_inv; [exact I|exact E1]).
    assert (pool s1 !! tid = Some (TExt sc u E_Done)) as Hl1
      by (simpl; by apply list_lookup_insert_eq).
    set (s2 := set_task tid (TExt sc u E_Finished)
                 (emit (EvDone tid)
                    (with_eng (set_wg (wg (eng s1) - 1) (eng s1)) s1))).
    assert (step s1 (ATask tid) = Some s2) as E2.
    { rewrite (ext_step_ok _ _ _ _ _ _ _ I1 Hl1). cbn [ext_step].
      by rewrite (ext_done_ok _ _ _ _ _ _ _ I1 Hl1). }
    assert (Inv ss d s2) as I2 by (eapply step_inv; [exact I1|exact E2]).
    exists s2. split.
    { unfold push_all. cbn [length seq flat_map app run]. by rewrite E1, E2. }
    split; [done|]. split.
    { simpl. by rewrite list_insert_insert_eq. }
    repeat split; done.
  - pose proof (lookup_lt_Some _ _ _ Hl) as Hlt.
    pose proof (ext_ch_open _ _ _ _ _ _ _ I Hl ltac:(done)) as Hc.
    set (s1 := set_task tid (TExt sc u (E_Send items)) (with_sink (S_Got x) s)).
    assert (step s (ATask tid) = Some s1) as E1.
    { rewrite (ext_step_ok _ _ _ _ _ _ _ I Hl). cbn [ext_step].
      by rewrite Hc, Hk. }
    assert (Inv ss d s1) as I1 by (eapply step_inv; [exact I|exact E1]).
    set (s2 := with_sink S_Loop (emit (EvCallback x) s1)).
    assert (step s1 ASink = Some s2) as E2.
    { unfold step. by rewrite (inv_alive _ _ _ I1). }
    assert (Inv ss d s2) as I2 by (eapply step_inv; [exact I1|exact E2]).
    destruct (IH s2 I2) as (s' & R & I' & P & M & W & K & D & Ma & Ca & C & Wk & X).
    { simpl. by apply list_lookup_insert_eq. }
    { done. }
    exists s'. split.
    { rewrite length_cons, push_all_S. cbn [run]. by rewrite E1, E2. }
    split; [done|]. split.
    { rewrite P. simpl. by rewrite list_insert_insert_eq. }
    repeat split; try done.
    rewrite C. simpl. by rewrite <- app_assoc.
Qed.

Lemma deliver_S tid n :
  deliver tid (S n) = ATask tid :: ASink :: deliver tid n.
Proof.
  unfold deliver. rewrite <- cons_seq. simpl. do 2 f_equal.
  rewrite <- seq_shift. rewrite flat_map_concat_map, map_map.
  by rewrite <- flat_map_concat_map.
Qed.

(** Inside [GetData] until the last item has reached the callback: the
    visited set is as it was. *)
Lemma ext_deliver tid sc u : forall items s,
  Inv ss d s -> pool s !! tid = Some (TExt sc u (E_Send items)) ->
  sinkG s = S_Loop ->
  exists s1,
    run (deliver tid (length items)) s = Some s1 /\ Inv ss d s1 /\
    pool s1 = <[tid := TExt sc u (E_Send [])]> (pool s) /\
    eng s1 = eng s /\ sinkG s1 = S_Loop /\
    callbacks (trace s1) = rev items ++ callbacks (trace s) /\
    extracted (trace s1) = extracted (trace s).
Proof.
  induction items as [|x items IH]; intros s I Hl Hk.
  - exists s. split; [done|]. split; [done|]. split.
    { by rewrite list_insert_id. }
    repeat split; done.
  - pose proof (lookup_lt_Some _ _ _ Hl) as Hlt.
    pose proof (ext_ch_open _ _ _ _ _ _ _ I Hl ltac:(done)) as Hc.
    set (s1 := set_task tid (TExt sc u (E_Send items)) (with_sink (S_Got x) s)).
    assert (step s (ATask tid) = Some s1) as E1.
    { rewrite (ext_step_ok _ _ _ _ _ _ _ I Hl). cbn [ext_step].
      by rewrite Hc, Hk. }
    assert (Inv ss d s1) as I1 by (eapply step_inv; [exact I|exact E1]).
    set (s2 := with_sink S_Loop (emit (EvCallback x) s1)).
    assert (step s1 ASink = Some s2) as E2.
    { unfold step. by rewrite (inv_alive _ _ _ I1). }
    assert (Inv ss d s2) as I2 by (eapply step_inv; [exact I1|exact E2]).
    destruct (IH s2 I2) as (s' & R & I' & P & M & K & C & X).
    { simpl. by apply list_lookup_insert_eq. }
    { done. }
    exists s'. split.
    { rewrite length_cons, deliver_S. cbn [run]. by rewrite E1, E2. }
    split; [done|]. split.
    { rewrite P. simpl. by rewrite list_insert_insert_eq. }
    repeat split; try done.
    rewrite C. simpl. by rewrite <- app_assoc.
Qed.

(** An unmarked URL is still unmarked when [GetData] has been called and
    the callback has received every item. *)
Lemma ext_mark_last tid sc u s :
  Inv ss d s -> pool s !! tid = Some (TExt sc u E_Check) ->
  sinkG s = S_Loop -> scraped u (eng s) = false ->
  exists s1,
    run (ATask tid :: ATask tid
         :: deliver tid (length (GetData sc (cancelled s) u))) s = Some s1 /\
    Inv ss d s1 /\
    pool s1 !! tid = Some (TExt sc u (E_Send [])) /\
    callbacks (trace s1) = rev (GetData sc (cancelled s) u) ++ callbacks (trace s) /\
    extracted (trace s1) = u :: extracted (trace s) /\
    scrapedUrls (eng s1) = scrapedUrls (eng s).
Proof.
  intros I Hl Hk Esc. pose proof (lookup_lt_Some _ _ _ Hl) as Hlt.
  set (s1 := set_task tid (TExt sc u E_Call) s).
  assert (step s (ATask tid) = Some s1) as E1.
  { rewrite (ext_step_ok _ _ _ _ _ _ _ I Hl). cbn [ext_step]. by rewrite Esc. }
  assert (Inv ss d s1) as I1 by (eapply step_inv; [exact I|exact E1]).
  assert (pool s1 !! tid = Some (TExt sc u E_Call)) as Hl1
    by (simpl; by apply list_lookup_insert_eq).
  set (items := GetData sc (cancelled s) u).
  set (s2 := set_task tid (TExt sc u (E_Send items))
               (emit (EvGetData tid u) s1)).
  assert (step s1 (ATask tid) = Some s2) as E2
    by (by rewrite (ext_step_ok _ _ _ _ _ _ _ I1 Hl1)).
  assert (Inv ss d s2) as I2 by (eapply step_inv; [exact I1|exact E2]).
  destruct (ext_deliver tid sc u items s2 I2) as (s3 & R & I3 & P & M & K & C & X).
  { simpl. apply list_lookup_insert_eq. by rewrite length_insert. }
  { done. }
  exists s3. split; [cbn [run]; by rewrite E1, E2|].
  split; [done|]. split.
  { rewrite P. apply list_lookup_insert_eq. simpl. by rewrite !length_insert. }
  split; [by rewrite C|]. split; [by rewrite X|]. by rewrite M.
Qed.

(** The goroutine of lines 64-77 from line 68 on, with the sink in its
    loop and nobody else moving. *)
Lemma ext_alone tid sc u s :
  Inv ss d s -> pool s !! tid = Some (TExt sc u E_Check) ->
  sinkG s = S_Loop ->
  exists s',
    run (ext_schedule tid (scraped u (eng s))
           (length (GetData sc (cancelled s) u))) s = Some s' /\
    Inv ss d s' /\
    pool s' = <[tid := TExt sc u E_Finished]> (pool s) /\
    scrapedUrls (eng s') =
      (if scraped u (eng s) then scrapedUrls (eng s)
       else <[u := true]> (scrapedUrls (eng s))) /\
    wg (eng s') = wg (eng s) - 1 /\
    sinkG s' = S_Loop /\ dispG s' = dispG s /\ mainG s' = mainG s /\
    cancelled s' = cancelled s /\
    callbacks (trace s') =
      (if scraped u (eng s) then []
       else rev (GetData sc (cancelled s) u)) ++ callbacks (trace s) /\
    walked (trace s') = walked (trace s) /\
    extracted (trace s') =
      (if scraped u (eng s) then [] else [u]) ++ extracted (trace s).
Proof.
  intros I Hl Hk. pose proof (lookup_lt_Some _ _ _ Hl) as Hlt.
  unfold ext_schedule. destruct (scraped u (eng s)) eqn:Esc.
  - set (s1 := set_task tid (TExt sc u E_Done) s).
    assert (step s (ATask tid) = Some s1) as E1.
    { rewrite (ext_step_ok _ _ _ _ _ _ _ I Hl). cbn [ext_step]. by rewrite Esc. }
    assert (Inv ss d s1) as I1 by (eapply step_inv; [exact I|exact E1]).
    assert (pool s1 !! tid = Some (TExt sc u E_Done)) as Hl1
      by (simpl; by apply list_lookup_insert_eq).
    set (s2 := set_task tid (TExt sc u E_Finished)
                 (emit (EvDone tid)
                    (with_eng (set_wg (wg (eng s1) - 1) (eng s1)) s1))).
    assert (step s1 (ATask tid) = Some s2) as E2.
    { rewrite (ext_step_ok _ _ _ _ _ _ _ I1 Hl1). cbn [ext_step].
      by rewrite (ext_done_ok _ _ _ _ _ _ _ I1 Hl1). }
    assert (Inv ss d s2) as I2 by (eapply step_inv; [exact I1|exact E2]).
    exists s2. split; [cbn [run]; by rewrite E1, E2|].
    split; [done|]. split.
    { simpl. by rewrite list_insert_insert_eq. }
    repeat split; done.
  - set (s1 := set_task tid (TExt sc u E_Call) s).
    assert (step s (ATask tid) = Some s1) as E1.
    { rewrite (ext_step_ok _ _ _ _ _ _ _ I Hl). cbn [ext_step]. by rewrite Esc. }
    assert (Inv ss d s1) as I1 by (eapply step_inv; [exact I|exact E1]).
    assert (pool s1 !! tid = Some (TExt sc u E_Call)) as Hl1
      by (simpl; by apply list_lookup_insert_eq).
    set (items := GetData sc (cancelled s) u).
    set (s2 := set_task tid (TExt sc u (E_Send items))
                 (emit (EvGetData tid u) s1)).
    assert (step s1 (ATask tid) = Some s2) as E2
      by (by rewrite (ext_step_ok _ _ _ _ _ _ _ I1 Hl1)).
    assert (Inv ss d s2) as I2 by (eapply step_inv; [exact I1|exact E2]).
    destruct (ext_push_all tid sc u items s2 I2)
      as (s' & R & I' & P & M & W & K & D & Ma & Ca & C & Wk & X).
    { simpl. apply list_lookup_insert_eq. by rewrite length_insert. }
    { done. }
    exists s'. split; [cbn [run]; by rewrite E1, E2|].
    split; [done|]. split.
    { rewrite P. simpl. by rewrite !list_insert_insert_eq. }
    repeat split; done.
Qed.

(** The extractions of a job one after the other. *)
Lemma job_alone sc : forall us p s,
  Inv ss d s -> pool s = p ++ job_extractions sc us -> sinkG s = S_Loop ->
  exists s',
    run (job_sched sc (cancelled s) (length p) (scrapedUrls (eng s)) us) s
      = Some s' /\
    Inv ss d s' /\
    pool s' = p ++ map (fun u => TExt sc u E_Finished) us /\
    scrapedUrls (eng s') = loop_marks (scrapedUrls (eng s)) us /\
    wg (eng s') = wg (eng s) - Z.of_nat (length us) /\
    sinkG s' = S_Loop /\ dispG s' = dispG s /\ mainG s' = mainG s /\
    cancelled s' = cancelled s /\
    rev (callbacks (trace s')) =
      rev (callbacks (trace s))
      ++ flat_map (GetData sc (cancelled s))
           (loop_children (scrapedUrls (eng s)) us) /\
    walked (trace s') = walked (trace s) /\
    rev (extracted (trace s')) =
      rev (extracted (trace s)) ++ loop_children (scrapedUrls (eng s)) us.
Proof.
  induction us as [|u rest IH]; intros p s I Hp Hk.
  - exists s. simpl in *. rewrite !app_nil_r in *.
    split; [done|]. split; [done|]. repeat split; try done. lia.
  - assert (pool s !! length p = Some (TExt sc u E_Check)) as Hl.
    { rewrite Hp. simpl. by rewrite list_lookup_middle. }
    destruct (ext_alone (length p) sc u s I Hl Hk)
      as (s1 & R1 & I1 & P1 & M1 & W1 & K1 & D1 & Ma1 & Ca1 & C1 & Wk1 & X1).
    assert (pool s1 = (p ++ [TExt sc u E_Finished]) ++ job_extractions sc rest)
      as Hp1.
    { rewrite P1, Hp. simpl.
      rewrite insert_app_r_alt by lia. rewrite Nat.sub_diag. simpl.
      by rewrite <- app_assoc. }
    destruct (IH _ s1 I1 Hp1 K1)
      as (s' & R & I' & P & M & W & K & D & Ma & Ca & C & Wk & X).
    rewrite length_app in R. simpl in R.
    replace (length p + 1)%nat with (S (length p)) in R by lia.
    rewrite Ca1 in R, C.
    cbn [job_sched loop_children loop_marks].
    rewrite scraped_lookup in *.
    destruct (scrapedUrls (eng s) !! u) as [b|] eqn:Eu.
    + rewrite M1 in *. exists s'. split.
      { rewrite run_app.
        change (run [ATask (length p); ATask (length p)] s = Some s1) in R1.
        change (ext_schedule (length p) true 0)
          with [ATask (length p); ATask (length p)].
        by rewrite R1. }
      split; [done|]. split.
      { rewrite P. simpl. by rewrite <- app_assoc. }
      split; [done|]. split; [rewrite W, W1; simpl; lia|].
      repeat split; try congruence.
      * rewrite C, C1. done.
      * rewrite X, X1. done.
    + rewrite M1 in *. exists s'. split; [by rewrite run_app, R1|].
      split; [done|]. split.
      { rewrite P. simpl. by rewrite <- app_assoc. }
      split; [done|]. split; [rewrite W, W1; simpl; lia|].
      repeat split; try congruence.
      * rewrite C, C1. simpl. rewrite rev_app_distr, rev_involutive.
        by rewrite <- app_assoc.
      * rewrite X, X1. simpl. by rewrite <- app_assoc.
Qed.

End ExtractionAlone.

Section MoreClaims5.

Context {T : Type}.
Implicit Types (s : Sys T) (ss : list (ScraperStrategy T)).

(** X15. The extraction goroutine on its own, lines 64-77: with the sink
    in its loop and nobody else moving, an extraction whose URL is in the
    visited set returns without calling [GetData]; otherwise it calls
    [GetData] once, the callback receives the pushed items in the order
    they were pushed, and only then is the URL put in the visited set:
    in the state in which [GetData] has been called and the callback has
    received every item, the visited set is still what it was at the
    start, the URL absent, and the next step of the goroutine is the one
    that puts it there (line 75), followed by its [Done]. Either way the
    counter is one lower at the end. *)
Theorem extraction_alone ss d sched s tid sc u :
  run sched (boot (NewScraper ss d)) = Some s ->
  pool s !! tid = Some (TExt sc u E_Check) ->
  sinkG s = S_Loop ->
  exists s',
    run (ext_schedule tid (scraped u (eng s))
           (length (GetData sc (cancelled s) u))) s = Some s' /\
    pool s' = <[tid := TExt sc u E_Finished]> (pool s) /\
    scrapedUrls (eng s') =
      (if scraped u (eng s) then scrapedUrls (eng s)
       else <[u := true]> (scrapedUrls (eng s))) /\
    wg (eng s') = wg (eng s) - 1 /\
    sinkG s' = S_Loop /\ dispG s' = dispG s /\ mainG s' = mainG s /\
    cancelled s' = cancelled s /\
    callbacks (trace s') =
      (if scraped u (eng s) then []
       else rev (GetData sc (cancelled s) u)) ++ callbacks (trace s) /\
    walked (trace s') = walked (trace s) /\
    extracted (trace s') =
      (if scraped u (eng s) then [] else [u]) ++ extracted (trace s) /\
    (scraped u (eng s) = false ->
     exists s1,
       run (ATask tid :: ATask tid
            :: deliver tid (length (GetData sc (cancelled s) u))) s = Some s1 /\
       pool s1 !! tid = Some (TExt sc u (E_Send [])) /\
       extracted (trace s1) = u :: extracted (trace s) /\
       callbacks (trace s1) =
         rev (GetData sc (cancelled s) u) ++ callbacks (trace s) /\
       scrapedUrls (eng s1) = scrapedUrls (eng s) /\
       scraped u (eng s1) = false /\
       step s1 (ATask tid) =
         Some (set_task tid (TExt sc u E_Done) (with_eng (mark u (eng s1)) s1)) /\
       run [ATask tid; ATask tid] s1 = Some s').
Proof.
  intros Hr Hl Hk. pose proof (reachable_inv _ _ _ _ Hr) as I.
  destruct (ext_alone ss d tid sc u s I Hl Hk) as (s' & R & _ & H).
  exists s'. split; [done|]. do 9 (destruct H as [? H]).
  do 10 (split; [done|]).
  intros Esc.
  destruct (ext_mark_last ss d tid sc u s I Hl Hk Esc)
    as (s1 & R1 & I1 & P1 & C1 & X1 & M1).
  exists s1. repeat (split; [done|]).
  split; [unfold scraped in *; by rewrite M1|].
  split; [by rewrite (ext_step_ok _ _ _ _ _ _ _ I1 P1)|].
  rewrite Esc in R. unfold ext_schedule, push_all in R.
  change (ATask tid :: ATask tid
          :: flat_map (fun _ => [ATask tid; ASink])
               (seq 0 (length (GetData sc (cancelled s) u)))
             ++ [ATask tid; ATask tid])
    with ((ATask tid :: ATask tid
           :: deliver tid (length (GetData sc (cancelled s) u)))
          ++ [ATask tid; ATask tid]) in R.
  by rewrite run_app, R1 in R.
Qed.

(** X16. Deduplication in sequence: when the extractions of a job run
    one after the other, [GetData] is called exactly on the URLs of the
    job that were not in the visited set, each once however often the
    job lists it and in the order of the job, and the callback receives
    their items in that order; every URL of the job ends in the visited
    set and the counter is lower by the length of the job. *)
Theorem job_in_sequence ss d sched s sc us p :
  run sched (boot (NewScraper ss d)) = Some s ->
  pool s = p ++ job_extractions sc us ->
  sinkG s = S_Loop ->
  exists s',
    run (job_sched sc (cancelled s) (length p) (scrapedUrls (eng s)) us) s
      = Some s' /\
    pool s' = p ++ map (fun u => TExt sc u E_Finished) us /\
    scrapedUrls (eng s') = loop_marks (scrapedUrls (eng s)) us /\
    wg (eng s') = wg (eng s) - Z.of_nat (length us) /\
    sinkG s' = S_Loop /\ dispG s' = dispG s /\ mainG s' = mainG s /\
    cancelled s' = cancelled s /\
    rev (callbacks (trace s')) =
      rev (callbacks (trace s))
      ++ flat_map (GetData sc (cancelled s))
           (loop_children (scrapedUrls (eng s)) us) /\
    walked (trace s') = walked (trace s) /\
    rev (extracted (trace s')) =
      rev (extracted (trace s)) ++ loop_children (scrapedUrls (eng s)) us.
Proof.
  intros Hr Hp Hk. pose proof (reachable_inv _ _ _ _ Hr) as I.
  destruct (job_alone ss d sc us p s I Hp Hk) as (s' & R & _ & H).
  by exists s'.
Qed.

End MoreClaims5.

Section OnePage.

Context {T : Type}.
Implicit Types (s : Sys T).

(** X17. A crawl of one page without next pages, goroutine by goroutine:
    [Run] up to [Wait], the sink, the walker, the dispatcher, then the
    extractions in the order of the page. The page is walked once;
    [GetData] is called once on each item URL of the page that is not the
    URL of the page itself, at its first occurrence and in the order of
    the page; the callback receives exactly their items, in that order;
    every goroutine finishes. And then [Run] stays in [Wait] with the
    counter at one. *)
Theorem crawl_one_page (sc : IScraper T) (url : string) (d : Z) :
  (GetUrls sc false url).2 = [] ->
  let us := (GetUrls sc false url).1 in
  let m : gmap string bool := <[url := true]> ∅ in
  exists s',
    run (repeat AMain 4 ++ [ASink] ++ repeat (ATask 0%nat) 6
         ++ drain d (length us) ++ job_sched sc false 1 m us)
      (boot (NewScraper [{| StrategyScraper := sc; Url := url |}] d))
      = Some s' /\
    walked (trace s') = [url] /\
    rev (extracted (trace s')) = loop_children m us /\
    rev (callbacks (trace s')) = flat_map (GetData sc false) (loop_children m us) /\
    pool s' = TWalk sc url W_Finished :: map (fun u => TExt sc u E_Finished) us /\
    scrapedUrls (eng s') = loop_marks m us /\
    wg (eng s') = 1 /\ mainG s' = M_Wait /\ step s' AMain = None.
Proof.
  intros Hnx us m.
  set (ss := [{| StrategyScraper := sc; Url := url |}]).
  set (s0 := {| eng := set_wg 1 (NewScraper ss d);
                mainG := M_Wait; dispG := D_Recv; sinkG := S_Select;
                pool := [TWalk sc url W_GetUrls];
                cancelled := false; now := 0; trace := []; crashed := false |}
             : Sys T).
  assert (run (repeat AMain 4) (boot (NewScraper ss d)) = Some s0) as E0
    by exact (main_to_wait ss d).
  set (s1 := with_sink S_Loop s0).
  assert (run (repeat AMain 4 ++ [ASink]) (boot (NewScraper ss d)) = Some s1)
    as E1 by (by rewrite run_app, E0).
  assert (Inv ss d s1) as I1 by (eapply run_inv; [apply boot_inv|exact E1]).
  destruct (walker_alone ss d 0%nat sc url s1 I1 eq_refl eq_refl)
    as (s2 & R2 & P2 & M2 & W2 & D2 & Ma2 & K2 & Ca2 & C2 & Wk2 & X2).
  change (cancelled s1) with false in *.
  change (scrapedUrls (eng s1)) with (∅ : gmap string bool) in *.
  fold m in R2, P2, M2, W2. fold us in W2, D2.
  rewrite Hnx in R2, P2, M2, W2.
  cbn [loop_steps loop_children loop_marks map length Nat.add] in R2, P2, M2, W2.
  assert (Inv ss d s2) as I2 by (eapply run_inv; [exact I1|exact R2]).
  destruct (drain_job ss d sc us s2 I2 D2)
    as (s3 & R3 & D3 & P3 & En3 & Ma3 & K3 & Ca3 & C3 & _ & Wk3 & X3 & _).
  assert (Inv ss d s3) as I3 by (eapply run_inv; [exact I2|exact R3]).
  assert (pool s3 = [TWalk sc url W_Finished] ++ job_extractions sc us) as P3'.
  { rewrite P3, P2. done. }
  destruct (job_alone ss d sc us _ s3 I3 P3')
    as (s' & R & I' & P & M & W & K & D & Ma & Ca & C & Wk & X).
  { by rewrite K3, K2. }
  rewrite Ca3, Ca2 in R, C. rewrite En3, M2 in R, C, X, M.
  rewrite En3, W2 in W. rewrite Ma3, Ma2 in Ma.
  rewrite C3, C2 in C. rewrite X3, X2 in X. rewrite Wk3, Wk2 in Wk.
  assert (wg (eng s') = 1) as W1.
  { rewrite W. change (wg (eng s1)) with 1. simpl. lia. }
  exists s'. split.
  { rewrite (app_assoc (repeat AMain 4)), run_app, E1.
    rewrite run_app, R2, run_app, R3. exact R. }
  split; [exact Wk|]. split; [exact X|]. split; [exact C|].
  split; [exact P|]. split; [exact M|]. split; [exact W1|].
  split; [exact Ma|].
  unfold step, main_step. rewrite (inv_alive _ _ _ I'), Ma, W1. done.
Qed.

End OnePage.

(** * Completion of an extraction *)

Section Completion.

Context {T : Type}.
Implicit Types (s : Sys T) (p : list (task T)) (t : task T).
Variable ss : list (ScraperStrategy T).
Variable d : Z.









End Completion.

Section CompletionClaim.

Context {T : Type}.
Implicit Types (s : Sys T) (ss : list (ScraperStrategy T)).


End CompletionClaim.

(** * Shutdown *)

Section Shutdown.

Context {T : Type}.
Implicit Types (s : Sys T) (p : list (task T)) (t : task T).
Variable ss : list (ScraperStrategy T).
Variable d : Z.

(** Only [Run] moves [Run]. *)
Lemma step_mainG s a s' :
  step s a = Some s' -> a <> AMain -> mainG s' = mainG s.
Proof.
  unfold step. intros H Ha. destruct (crashed s); [done|].
  destruct a as [| | |tid| |dt]; [done|..].
  - unfold disp_step in H.
    destruct (dispG s) as [| |sc [|u rest]|sc rest|wake sc rest|];
      repeat case_match; simplify_eq; done.
  - unfold sink_step in H.
    destruct (sinkG s); repeat case_match; simplify_eq; done.
  - unfold task_step, walk_step, ext_step, wg_done in H.
    repeat case_match; simplify_eq; done.
  - by simplify_eq.
  - case_match; by simplify_eq.
Qed.

(** The one step that takes [Run] past line 144. *)
Lemma wait_returns s a s' :
  step s a = Some s' ->
  past_wait (mainG s) = false -> past_wait (mainG s') = true ->
  a = AMain /\ mainG s = M_Wait /\ wg (eng s) = 0 /\
  s' = with_main M_CloseJobs s.
Proof.
  intros H Hb Ha.
  assert (a = AMain) as ->.
  { destruct a; try done;
      by rewrite (step_mainG _ _ _ H) in Ha by done; rewrite Ha in Hb. }
  split; [done|]. unfold step in H. destruct (crashed s); [done|].
  unfold main_step in H.
  destruct (mainG s) as [| |[|st rest]| | | |]; simplify_eq; try done.
  destruct (Z.eqb_spec (wg (eng s)) 0); by simplify_eq.
Qed.

(** A run that ends with [Run] past line 144 went through the return of
    [Wait]. *)
Lemma wait_returned sched : forall s0 s,
  past_wait (mainG s0) = false -> run sched s0 = Some s ->
  past_wait (mainG s) = true ->
  exists pre post s1,
    sched = pre ++ AMain :: post /\ run pre s0 = Some s1 /\
    mainG s1 = M_Wait /\ wg (eng s1) = 0 /\
    step s1 AMain = Some (with_main M_CloseJobs s1) /\
    run post (with_main M_CloseJobs s1) = Some s.
Proof.
  induction sched as [|a sched IH]; intros s0 s Hb H Ha; simpl in H.
  - simplify_eq. by rewrite Ha in Hb.
  - destruct (step s0 a) as [s'|] eqn:E; [|done].
    destruct (past_wait (mainG s')) eqn:Hp.
    + destruct (wait_returns _ _ _ E Hb Hp) as (-> & Em & Hw & ->).
      exists [], sched, s0. repeat split; done.
    + destruct (IH s' s Hp H Ha) as (pre & post & s1 & -> & R & ?).
      exists (a :: pre), post, s1. split; [done|]. split; [|done].
      simpl. by rewrite E.
Qed.

(** With the counter at zero nothing is left to do. *)
Lemma zero_quiet s :
  Inv ss d s -> wg (eng s) = 0 ->
  Forall (fun t => finished t = true) (pool s) /\ disp_units (dispG s) = 0.
Proof.
  intros I H0. pose proof (inv_units _ _ _ I) as Hu. rewrite H0 in Hu.
  pose proof (main_units_nonneg ss (mainG s)).
  pose proof (disp_units_nonneg (dispG s)).
  pose proof (sum_over_nonneg task_units (pool s) task_units_nonneg).
  split; [|lia]. apply Forall_lookup_2. intros tid t Hl.
  pose proof (units_le_wg ss d s tid t I Hl) as Hle. rewrite H0 in Hle.
  pose proof (task_units_nonneg t).
  destruct t as [? ? []|? ? []]; simpl in *; done || lia.
Qed.

(** A goroutine that has not finished holds a unit of the counter. *)
Lemma unfinished_unit t : finished t = false -> 0 < task_units t.
Proof. destruct t as [? ? []|? ? []]; simpl; done || lia. Qed.

Lemma finished_stuck s tid :
  Forall (fun t => finished t = true) (pool s) -> step s (ATask tid) = None.
Proof.
  intros Hf. unfold step, task_step. destruct (crashed s); [done|].
  destruct (pool s !! tid) as [t|] eqn:Hl; [|done].
  pose proof (Forall_lookup_1 _ _ _ _ Hf Hl) as Ht.
  destruct t as [? ? []|? ? []]; simpl in *; done.
Qed.

End Shutdown.

Section ShutdownClaim.

Context {T : Type}.
Implicit Types (s : Sys T) (ss : list (ScraperStrategy T)).

(** C7. [Run] closes the two channels only after [Wait] has returned,
    so no goroutine that is still running can send on a closed channel.
    The statement is about a run from the start of [Run] on a new engine,
    and also about a run from any state [s0] in which the counter accounts
    for the goroutines ([Inv], which every state of the former runs
    satisfies), so that it covers [Wait] with goroutines at work whatever
    brought the counter there. At every state [s] of the run: no panic has
    happened
    (a send on a closed channel is one); a closed jobs channel means [Run]
    is past line 144, a closed data channel that it has returned; if [Run]
    was not yet past line 144 at [s0] and is at [s], the schedule passed
    through the return of [Wait]: a state with [Run] at line 144, the
    counter at zero, both channels still open, every goroutine finished
    and no URL left with the dispatcher, from which the run continued to
    [s]; as long as a goroutine has not finished or the dispatcher holds a
    URL, [Run] is not past line 144, [Wait] does not return and both
    channels are open; once [Run] is past line 144 every goroutine has
    finished and none can take a step; and a walker about to send its job
    finds the jobs channel open, an extraction inside [GetData] the data
    channel. *)
Theorem close_only_after_wait ss d s0 sched s :
  s0 = boot (NewScraper ss d) \/ Inv ss d s0 ->
  run sched s0 = Some s ->
  crashed s = false /\
  (jobs (eng s) = Closed -> past_wait (mainG s) = true) /\
  (ch (eng s) = Closed -> mainG s = M_Returned) /\
  (past_wait (mainG s0) = false -> past_wait (mainG s) = true ->
   exists pre post s1,
     sched = pre ++ AMain :: post /\ run pre s0 = Some s1 /\
     mainG s1 = M_Wait /\ wg (eng s1) = 0 /\
     jobs (eng s1) = Open /\ ch (eng s1) = Open /\
     Forall (fun t => finished t = true) (pool s1) /\
     disp_units (dispG s1) = 0 /\
     step s1 AMain = Some (with_main M_CloseJobs s1) /\
     run post (with_main M_CloseJobs s1) = Some s) /\
  ((exists tid t, pool s !! tid = Some t /\ finished t = false) \/
   0 < disp_units (dispG s) ->
   past_wait (mainG s) = false /\
   jobs (eng s) = Open /\ ch (eng s) = Open /\
   (mainG s = M_Wait -> step s AMain = None)) /\
  (past_wait (mainG s) = true ->
   wg (eng s) = 0 /\ disp_units (dispG s) = 0 /\
   Forall (fun t => finished t = true) (pool s) /\
   forall tid, step s (ATask tid) = None) /\
  (forall tid sc url us nx,
     pool s !! tid = Some (TWalk sc url (W_Send us nx)) ->
     jobs (eng s) = Open) /\
  (forall tid sc url items,
     pool s !! tid = Some (TExt sc url (E_Send items)) ->
     ch (eng s) = Open).
Proof.
  intros Hs0 Hr.
  assert (Inv ss d s0) as I0 by (destruct Hs0 as [->|?]; [apply boot_inv|done]).
  pose proof (run_inv _ _ _ _ _ I0 Hr) as I.
  split; [by destruct I|].
  split. { intros Hj. by destruct (inv_jobs _ _ _ I Hj) as [->| ->]. }
  split; [by apply (inv_ch _ _ _ I)|].
  split; [|split; [|split; [|split]]].
  - intros Hb Ha.
    destruct (wait_returned sched s0 s Hb Hr Ha)
      as (pre & post & s1 & -> & R & Em & Hw & E & Rp).
    pose proof (run_inv _ _ _ _ _ I0 R) as I1.
    destruct (zero_quiet ss d s1 I1 Hw) as [Hf Hd].
    exists pre, post, s1. split; [done|]. split; [done|].
    split; [done|]. split; [done|].
    split; [apply (no_panic_jobs ss d s1 I1); by rewrite Em|].
    split; [apply (no_panic_ch ss d s1 I1); by rewrite Em|]. done.
  - intros Hbusy.
    assert (0 < wg (eng s)) as Hpos.
    { destruct Hbusy as [(tid & t & Hl & Hf)|Hd].
      - pose proof (units_le_wg ss d s tid t I Hl).
        pose proof (unfinished_unit t Hf). lia.
      - pose proof (inv_units _ _ _ I) as Hu.
        pose proof (main_units_nonneg ss (mainG s)).
        pose proof (sum_over_nonneg task_units (pool s) task_units_nonneg).
        lia. }
    assert (past_wait (mainG s) = false) as Hnw.
    { destruct (past_wait (mainG s)) eqn:E; [|done].
      pose proof (inv_waited _ _ _ I E). lia. }
    split; [done|]. split; [by eapply no_panic_jobs|].
    split; [by eapply no_panic_ch|].
    intros Em. unfold step, main_step. rewrite (inv_alive _ _ _ I), Em.
    destruct (Z.eqb_spec (wg (eng s)) 0); [lia|done].
  - intros Hw. pose proof (inv_waited _ _ _ I Hw) as H0.
    destruct (zero_quiet ss d s I H0) as [Hf Hd].
    split; [done|]. split; [done|]. split; [done|].
    intros tid. by apply finished_stuck.
  - intros tid sc url us nx Hl. apply (no_panic_jobs ss d s I).
    eapply busy_not_waited; [done..|]. simpl. lia.
  - intros tid sc url items Hl. by eapply ext_ch_open.
Qed.

End ShutdownClaim.

(** * Seeds and the visited set *)

Section Seeds.

Context {T : Type}.
Implicit Types (s : Sys T) (p : list (task T)) (t : task T).
Variable ss : list (ScraperStrategy T).
Variable d : Z.

Lemma at_start_nonneg u t : 0 <= at_start u t.
Proof.
  destruct t as [sc v []|sc v pc]; simpl; try done.
  by destruct (String.eqb v u).
Qed.

Lemma wg_done_walked tid s : walked (trace (wg_done tid s)) = walked (trace s).
Proof. unfold wg_done. by case_match. Qed.

Lemma wg_done_mainG tid s : mainG (wg_done tid s) = mainG s.
Proof. unfold wg_done. by case_match. Qed.

Lemma seed_step u s a s' :
  Inv ss d s -> SeedInv u ss s -> step s a = Some s' -> SeedInv u ss s'.
Proof.
  intros I Q H. unfold step in H. rewrite (inv_alive _ _ _ I) in H.
  pose proof (inv_strategy _ _ _ I) as Hss.
  unfold SeedInv, walks_on, seeds_on in *.
  destruct a as [| | |tid| |dt].
  - unfold main_step in H.
    destruct (mainG s) as [| |[|st rest]| | | |] eqn:Em;
      repeat case_match; simplify_eq; simpl in *;
      rewrite ?sum_over_snoc, ?Em; unfold seeds_on in *; simpl in *; lia.
  - unfold disp_step in H.
    destruct (dispG s) as [| |sc [|v rest]|sc rest|wake sc rest|];
      repeat case_match; simplify_eq; simpl in *;
      rewrite ?sum_over_snoc; simpl; lia.
  - unfold sink_step in H.
    destruct (sinkG s); repeat case_match; simplify_eq; simpl in *; lia.
  - unfold task_step in H.
    destruct (pool s !! tid) as [[sc v pc|sc v pc]|] eqn:Hl; [| |done].
    + pose proof (fun t => lookup_app_l_Some _ [t] _ _ Hl) as Hl'.
      unfold walk_step in H.
      destruct pc as [|us nx|us nx|us nx|us nx|[|c rest]|c rest|c rest|c rest|];
        repeat case_match; simplify_eq; simpl;
        rewrite ?wg_done_walked, ?wg_done_mainG, ?wg_done_pool;
        rewrite ?(sum_over_insert _ _ _ _ _ Hl),
          ?(sum_over_insert _ _ _ _ _ (Hl' _)), ?sum_over_snoc;
        simpl; try lia.
      destruct (String.eqb c u); lia.
    + unfold ext_step in H.
      destruct pc as [| |[|x rest]| |];
        repeat case_match; simplify_eq; simpl;
        rewrite ?wg_done_walked, ?wg_done_mainG, ?wg_done_pool;
        rewrite ?(sum_over_insert _ _ _ _ _ Hl); simpl; lia.
  - simplify_eq. simpl. lia.
  - case_match; simplify_eq. simpl. lia.
Qed.

Lemma seed_run u sched : forall s s',
  Inv ss d s -> SeedInv u ss s -> run sched s = Some s' -> SeedInv u ss s'.
Proof.
  induction sched as [|a sched IH]; intros s s' I Q H; simpl in H.
  - by simplify_eq.
  - destruct (step s a) as [s1|] eqn:E; [|done].
    eapply IH; [| |done].
    + by eapply step_inv.
    + by eapply seed_step.
Qed.

Lemma none_at_start u p :
  Forall (fun t => forall sc, t <> TWalk sc u W_GetUrls) p ->
  sum_over (at_start u) p = 0.
Proof.
  induction 1 as [|t p Ht _ IH]; simpl; [done|]. rewrite IH.
  destruct t as [sc v []|sc v pc]; simpl; try done.
  destruct (String.eqb_spec v u) as [->|]; [|done]. by destruct (Ht sc).
Qed.

End Seeds.

Section SeedsClaim.

Context {T : Type}.
Implicit Types (s : Sys T) (ss : list (ScraperStrategy T)).

(** C8, as amended. A walker calls [GetUrls] on its page whatever the
    visited set holds, and the call leaves the set as it is (line 106);
    its next step puts the page in the set, without a test (line 107);
    from line 108 on, so before it looks at any next page, the page is in
    the set; and at line 124 the next page has been put in the set by
    the parent before the child walker is started. [Run] starts the
    walker of each strategy without reading or writing the set (lines
    138-141). So every strategy has a walker of its own that calls
    [GetUrls] on its seed: at any time the strategies whose seed is [u]
    are covered by the calls of [GetUrls] on [u] made so far, the walkers
    of [u] that have not made theirs yet and the walkers [Run] has still
    to start; when [Run] is in [Wait] and no walker of [u] is before its
    call, [u] has been walked at least once for each strategy that names
    it. *)
Theorem walker_marks_before_recursing ss d sched s :
  run sched (boot (NewScraper ss d)) = Some s ->
  (forall tid sc u, pool s !! tid = Some (TWalk sc u W_GetUrls) ->
     step s (ATask tid) =
     Some (set_task tid
             (TWalk sc u (W_Mark (fst (GetUrls sc (cancelled s) u))
                                 (snd (GetUrls sc (cancelled s) u))))
             (emit (EvGetUrls tid u) s))) /\
  (forall tid sc u us nx, pool s !! tid = Some (TWalk sc u (W_Mark us nx)) ->
     step s (ATask tid) =
     Some (set_task tid (TWalk sc u (W_AddUrls us nx))
             (with_eng (mark u (eng s)) s))) /\
  (forall tid sc u pc, pool s !! tid = Some (TWalk sc u pc) ->
     pc <> W_GetUrls -> (forall us nx, pc <> W_Mark us nx) ->
     scraped u (eng s) = true) /\
  (forall tid sc u c rest, pool s !! tid = Some (TWalk sc u (W_Spawn c rest)) ->
     scraped c (eng s) = true /\
     step s (ATask tid) =
     Some (set_task tid (TWalk sc u (W_Loop rest))
             (spawn (TWalk sc c W_GetUrls) s))) /\
  (forall st rest, mainG s = M_Spawn (st :: rest) ->
     step s AMain =
     Some (with_main (M_Spawn rest)
             (spawn (TWalk (StrategyScraper st) (Url st) W_GetUrls) s))) /\
  (forall u,
     seeds_on u ss <=
     walks_on u (trace s) + sum_over (at_start u) (pool s)
     + pending_on u ss (mainG s)) /\
  (forall u, mainG s = M_Wait ->
     Forall (fun t => forall sc, t <> TWalk sc u W_GetUrls) (pool s) ->
     seeds_on u ss <= walks_on u (trace s)).
Proof.
  intros Hr. pose proof (reachable_inv _ _ _ _ Hr) as I.
  assert (MarkInv s) as M by (eapply mark_run; [|done]; constructor).
  assert (forall u, SeedInv u ss s) as Q.
  { intros u. eapply (seed_run ss d u sched); [apply boot_inv| |done].
    unfold SeedInv, walks_on. simpl. lia. }
  split; [|split; [|split; [|split; [|split; [|split]]]]].
  - intros tid sc u Hl. unfold step, task_step.
    by rewrite (inv_alive _ _ _ I), Hl.
  - intros tid sc u us nx Hl. unfold step, task_step.
    by rewrite (inv_alive _ _ _ I), Hl.
  - intros tid sc u pc Hl H1 H2.
    pose proof (Forall_lookup_1 _ _ _ _ M Hl) as Ht. simpl in Ht.
    destruct pc; try done.
    + by destruct (H2 us next).
    + by apply andb_true_iff in Ht as [? ?].
  - intros tid sc u c rest Hl.
    pose proof (Forall_lookup_1 _ _ _ _ M Hl) as Ht. simpl in Ht.
    apply andb_true_iff in Ht as [? ?]. split; [done|].
    unfold step, task_step. by rewrite (inv_alive _ _ _ I), Hl.
  - intros st rest Em. unfold step, main_step.
    by rewrite (inv_alive _ _ _ I), Em.
  - exact Q.
  - intros u Em Hf. specialize (Q u). unfold SeedInv in Q.
    rewrite Em, (none_at_start u _ Hf) in Q. simpl in Q. lia.
Qed.

End SeedsClaim.

(** * Completion, shutdown and seeds on the sites *)

Section LaterOnSites.

Import Sites.
Local Open Scope string_scope.
Local Open Scope list_scope.



Lemma close_only_after_wait_witness :
  let r := after (two_pages_walk ++ [ATask 4%nat]) two_pages_boot in
  let s1 := after job_running job_in_hand in
  let s := after job_closed job_in_hand in
  run (two_pages_walk ++ [ATask 4%nat]) two_pages_boot = Some r /\
  pool r !! 2%nat = Some (TExt two_pages "b" (E_Send ["b"])) /\
  mainG r = M_Wait /\ step r AMain = None /\
  jobs (eng r) = Open /\ ch (eng r) = Open /\
  Inv [] 0 job_in_hand /\
  run job_running job_in_hand = Some s1 /\
  pool s1 !! 0%nat = Some (TExt two_items "a" (E_Send ["a"])) /\
  mainG s1 = M_Wait /\ step s1 AMain = None /\
  jobs (eng s1) = Open /\ ch (eng s1) = Open /\
  run job_closed job_in_hand = Some s /\
  jobs (eng s) = Closed /\ ch (eng s) = Closed /\ crashed s = false /\
  pool s = [TExt two_items "a" E_Finished; TExt two_items "b" E_Finished] /\
  rev (callbacks (trace s)) = ["a"; "b"] /\
  (forall tid, step s (ATask tid) = None) /\
  exists pre post s2,
    job_closed = pre ++ AMain :: post /\ run pre job_in_hand = Some s2 /\
    mainG s2 = M_Wait /\ wg (eng s2) = 0 /\
    jobs (eng s2) = Open /\ ch (eng s2) = Open /\
    Forall (fun t => finished t = true) (pool s2).
Proof.
  cbv zeta.
  assert (Inv [] 0 job_in_hand) as Ij
    by (split; simpl; intros; done || lia).
  destruct (close_only_after_wait [seed two_pages "p1"] 0 two_pages_boot
              (two_pages_walk ++ [ATask 4%nat])
              (after (two_pages_walk ++ [ATask 4%nat]) two_pages_boot)
              (or_introl eq_refl)
              ltac:(vm_compute; reflexivity))
    as (_ & _ & _ & _ & Br & _).
  destruct Br as (_ & Jr & Cr & Wr).
  { left. exists 2%nat, (TExt two_pages "b" (E_Send ["b"])).
    split; vm_compute; reflexivity. }
  destruct (close_only_after_wait [] 0 job_in_hand job_running
              (after job_running job_in_hand) (or_intror Ij)
              ltac:(vm_compute; reflexivity))
    as (_ & _ & _ & _ & B1 & _).
  destruct B1 as (_ & J1 & C1 & W1).
  { left. exists 0%nat, (TExt two_items "a" (E_Send ["a"])).
    split; vm_compute; reflexivity. }
  destruct (close_only_after_wait [] 0 job_in_hand job_closed
              (after job_closed job_in_hand) (or_intror Ij)
              ltac:(vm_compute; reflexivity))
    as (A & _ & _ & S & _ & Q & _).
  destruct S as (pre & post & s2 & Es & R2 & M2 & W2 & J2 & C2 & F2 & _);
    [vm_compute; reflexivity..|].
  destruct Q as (_ & _ & _ & Q); [vm_compute; reflexivity|].
  split; [vm_compute; reflexivity|].
  split; [vm_compute; reflexivity|]. split; [vm_compute; reflexivity|].
  split; [apply Wr; vm_compute; reflexivity|].
  split; [exact Jr|]. split; [exact Cr|].
  split; [exact Ij|]. split; [vm_compute; reflexivity|].
  split; [vm_compute; reflexivity|]. split; [vm_compute; reflexivity|].
  split; [apply W1; vm_compute; reflexivity|].
  split; [exact J1|]. split; [exact C1|].
  split; [vm_compute; reflexivity|]. split; [vm_compute; reflexivity|].
  split; [vm_compute; reflexivity|]. split; [exact A|].
  split; [vm_compute; reflexivity|]. split; [vm_compute; reflexivity|].
  split; [exact Q|].
  exists pre, post, s2. repeat (split; [assumption|]). assumption.
Defined.

Lemma walker_marks_before_recursing_witness :
  let s1 := after shared_seed_first_done shared_seed_boot in
  let s := after shared_seed_sched shared_seed_boot in
  run shared_seed_first_done shared_seed_boot = Some s1 /\
  pool s1 !! 1%nat = Some (TWalk one_page "p" W_GetUrls) /\
  scraped "p" (eng s1) = true /\
  step s1 (ATask 1) =
    Some (set_task 1 (TWalk one_page "p" (W_Mark ["a"] []))
            (emit (EvGetUrls 1 "p") s1)) /\
  run shared_seed_sched shared_seed_boot = Some s /\
  mainG s = M_Wait /\
  seeds_on "p" [seed one_page "p"; seed one_page "p"] = 2 /\
  2 <= walks_on "p" (trace s).
Proof.
  split; [vm_compute; reflexivity|]. split; [vm_compute; reflexivity|].
  split; [vm_compute; reflexivity|].
  destruct (walker_marks_before_recursing
              [seed one_page "p"; seed one_page "p"] 0 shared_seed_first_done
              (after shared_seed_first_done shared_seed_boot)
              ltac:(vm_compute; reflexivity)) as (G1 & _).
  split; [apply (G1 1%nat one_page "p"); vm_compute; reflexivity|].
  split; [vm_compute; reflexivity|]. split; [vm_compute; reflexivity|].
  split; [vm_compute; reflexivity|].
  destruct (walker_marks_before_recursing
              [seed one_page "p"; seed one_page "p"] 0 shared_seed_sched
              (after shared_seed_sched shared_seed_boot)
              ltac:(vm_compute; reflexivity)) as (_ & _ & _ & _ & _ & _ & G7).
  apply (G7 "p"); [vm_compute; reflexivity|].
  vm_compute. repeat constructor; discriminate.
Defined.

End LaterOnSites.

(** * The further properties on the sites *)

Section MoreOnSites.

Import Sites.
Local Open Scope string_scope.
Local Open Scope list_scope.

Lemma visited_set_only_grows_witness :
  let s := after diamond_spawning diamond_boot in
  let s' := after diamond_sched diamond_boot in
  run (skipn (length diamond_spawning) diamond_sched) s = Some s' /\
  scraped "p2" (eng s) = true /\
  scraped "p2" (eng s') = true.
Proof.
  split; [vm_compute; reflexivity|]. split; [vm_compute; reflexivity|].
  apply (visited_set_only_grows
           (skipn (length diamond_spawning) diamond_sched)
           (after diamond_spawning diamond_boot));
    vm_compute; reflexivity.
Defined.

Lemma one_extractor_call_per_goroutine_witness :
  let s := after two_pages_sched two_pages_boot in
  run two_pages_sched two_pages_boot = Some s /\
  pool s !! 3%nat = Some (TWalk two_pages "p2" W_Finished) /\
  pool s !! 4%nat = Some (TExt two_pages "b" E_Finished) /\
  walks_of 3 (trace s) = ["p2"] /\ extracts_of 3 (trace s) = [] /\
  walks_of 4 (trace s) = [] /\ extracts_of 4 (trace s) = ["b"].
Proof.
  split; [vm_compute; reflexivity|]. split; [vm_compute; reflexivity|].
  split; [vm_compute; reflexivity|].
  pose proof (one_extractor_call_per_goroutine [seed two_pages "p1"] 0
                two_pages_sched (after two_pages_sched two_pages_boot) 3%nat
                ltac:(vm_compute; reflexivity)) as [H3 _].
  pose proof (one_extractor_call_per_goroutine [seed two_pages "p1"] 0
                two_pages_sched (after two_pages_sched two_pages_boot) 4%nat
                ltac:(vm_compute; reflexivity)) as [_ H4].
  destruct (H3 two_pages "p2" W_Finished ltac:(vm_compute; reflexivity))
    as [E3 W3].
  destruct (H4 two_pages "b" E_Finished ltac:(vm_compute; reflexivity))
    as (W4 & _ & _ & _).
  split; [exact W3|]. split; [exact E3|]. split; [exact W4|].
  vm_compute; reflexivity.
Defined.

Lemma marked_url_never_extracted_witness :
  let s := after thrice_first_done thrice_boot in
  run thrice_first_done thrice_boot = Some s /\
  pool s !! 2%nat = Some (TExt thrice "b" E_Check) /\
  scraped "b" (eng s) = true /\
  run thrice_others s = Some (after thrice_others s) /\
  extracts_of 2 (trace (after thrice_others s)) = [] /\
  exists pc, pool (after thrice_others s) !! 2%nat = Some (TExt thrice "b" pc) /\
             (pc = E_Check \/ pc = E_Done \/ pc = E_Finished).
Proof.
  split; [vm_compute; reflexivity|]. split; [vm_compute; reflexivity|].
  split; [vm_compute; reflexivity|]. split; [vm_compute; reflexivity|].
  apply (marked_url_never_extracted [seed thrice "p"] 0 thrice_first_done
           (after thrice_first_done thrice_boot) thrice_others);
    vm_compute; reflexivity.
Defined.

Lemma walked_page_url_never_extracted_witness :
  let s := after selfitem_launched selfitem_boot in
  let s' := after [ATask 1%nat; ATask 1%nat] s in
  run selfitem_launched selfitem_boot = Some s /\
  pool s !! 0%nat = Some (TWalk selfitem "p" (W_Loop [])) /\
  pool s !! 1%nat = Some (TExt selfitem "p" E_Check) /\
  run [ATask 1%nat; ATask 1%nat] s = Some s' /\
  pool s' !! 1%nat = Some (TExt selfitem "p" E_Finished) /\
  extracts_of 1 (trace s') = [].
Proof.
  split; [vm_compute; reflexivity|]. split; [vm_compute; reflexivity|].
  split; [vm_compute; reflexivity|]. split; [vm_compute; reflexivity|].
  split; [vm_compute; reflexivity|].
  apply (walked_page_url_never_extracted [seed selfitem "p"] 0
           selfitem_launched (after selfitem_launched selfitem_boot)
           [ATask 1%nat; ATask 1%nat] _ 0%nat selfitem (W_Loop []) 1%nat
           selfitem "p");
    try (vm_compute; reflexivity); discriminate.
Defined.

Lemma walker_never_claims_own_url_witness :
  let s := after diamond_spawning diamond_boot in
  run diamond_spawning diamond_boot = Some s /\
  pool s !! 0%nat = Some (TWalk diamond "p1" (W_Spawn "p2" ["p3"])) /\
  claiming (W_Spawn "p2" ["p3"]) <> Some "p1".
Proof.
  split; [vm_compute; reflexivity|]. split; [vm_compute; reflexivity|].
  apply (walker_never_claims_own_url [seed diamond "p1"] 0 diamond_spawning
           (after diamond_spawning diamond_boot) 0%nat diamond "p1"
           (W_Spawn "p2" ["p3"]));
    vm_compute; reflexivity.
Defined.

Lemma cancelled_sink_never_delivers_witness :
  let s := after early_cancel one_page_boot in
  let s' := after after_early_cancel s in
  run early_cancel one_page_boot = Some s /\
  sinkG s = S_Select /\ cancelled s = true /\
  run after_early_cancel s = Some s' /\
  pool s' !! 1%nat = Some (TExt one_page "a" (E_Send ["a"])) /\
  callbacks (trace s') = [] /\
  step s' (ATask 1) = None.
Proof.
  split; [vm_compute; reflexivity|]. split; [vm_compute; reflexivity|].
  split; [vm_compute; reflexivity|]. split; [vm_compute; reflexivity|].
  split; [vm_compute; reflexivity|].
  destruct (cancelled_sink_never_delivers [seed one_page "p"] 0 early_cancel
              (after early_cancel one_page_boot) after_early_cancel
              (after after_early_cancel (after early_cancel one_page_boot)))
    as (Hc & _ & Hb); try (vm_compute; reflexivity).
  split; [exact Hc|].
  apply (Hb 1%nat one_page "a" "a" []). vm_compute; reflexivity.
Defined.

Lemma no_delay_no_sleep_witness :
  let s := after two_pages_walk two_pages_boot in
  0 <= 0 /\
  run two_pages_walk two_pages_boot = Some s /\
  (forall wake j rest, dispG s <> D_Sleep wake j rest) /\
  (forall j rest, dispG s = D_Delay j rest ->
     step s ADisp = Some (with_disp (D_Loop j rest) s)).
Proof.
  split; [done|]. split; [vm_compute; reflexivity|].
  apply (no_delay_no_sleep [seed two_pages "p1"] 0 two_pages_walk);
    [done|vm_compute; reflexivity].
Defined.

Lemma counter_ends_at_walker_count_witness :
  let s := after diamond_sched diamond_boot in
  run diamond_sched diamond_boot = Some s /\
  mainG s = M_Wait /\ disp_units (dispG s) = 0 /\
  wg (eng s) = 5 /\
  wg (eng s) = sum_over is_walk (pool s) /\ 1 <= wg (eng s).
Proof.
  split; [vm_compute; reflexivity|]. split; [vm_compute; reflexivity|].
  split; [vm_compute; reflexivity|]. split; [vm_compute; reflexivity|].
  apply (counter_ends_at_walker_count [seed diamond "p1"] 0 diamond_sched);
    try (vm_compute; reflexivity).
  vm_compute. repeat constructor.
Defined.

Lemma dispatcher_launches_each_url_witness :
  let s := after thrice_job_sent thrice_boot in
  run thrice_job_sent thrice_boot = Some s /\
  dispG s = D_Loop thrice ["b"; "b"; "b"] /\
  exists s',
    run (drain 0 3) s = Some s' /\ dispG s' = D_Recv /\
    pool s' = pool s ++ job_extractions thrice ["b"; "b"; "b"].
Proof.
  split; [vm_compute; reflexivity|]. split; [vm_compute; reflexivity|].
  destruct (dispatcher_launches_each_url [seed thrice "p"] 0 thrice_job_sent
              (after thrice_job_sent thrice_boot) thrice ["b"; "b"; "b"])
    as (s' & R & D & P & _); try (vm_compute; reflexivity).
  exists s'. split; [exact R|]. split; [exact D|exact P].
Defined.

Lemma runScraper_alone_witness :
  let s := after diamond_started diamond_boot in
  run diamond_started diamond_boot = Some s /\
  pool s !! 0%nat = Some (TWalk diamond "p1" W_GetUrls) /\
  dispG s = D_Recv /\
  exists s',
    run (repeat (ATask 0%nat) 14) s = Some s' /\
    pool s' = [TWalk diamond "p1" W_Finished; TWalk diamond "p2" W_GetUrls;
               TWalk diamond "p3" W_GetUrls] /\
    wg (eng s') = 3.
Proof.
  split; [vm_compute; reflexivity|]. split; [vm_compute; reflexivity|].
  split; [vm_compute; reflexivity|].
  destruct (runScraper_alone [seed diamond "p1"] 0 diamond_started
              (after diamond_started diamond_boot) 0%nat diamond "p1")
    as (s' & R & P & _ & W & _); try (vm_compute; reflexivity).
  exists s'. split; [exact R|]. split.
  - rewrite P. vm_compute. reflexivity.
  - rewrite W. vm_compute. reflexivity.
Defined.

Lemma callback_items_come_from_GetData_witness :
  let s := after two_pages_sched two_pages_boot in
  run two_pages_sched two_pages_boot = Some s /\
  In "b" (callbacks (trace s)) /\
  exists st b u,
    In st [seed two_pages "p1"] /\ In u (extracted (trace s)) /\
    In "b" (GetData (StrategyScraper st) b u).
Proof.
  split; [vm_compute; reflexivity|].
  assert (In "b" (callbacks (trace (after two_pages_sched two_pages_boot))))
    as Hin by (vm_compute; auto).
  split; [exact Hin|].
  apply (callback_items_come_from_GetData [seed two_pages "p1"] 0
           two_pages_sched (after two_pages_sched two_pages_boot) "b");
    [vm_compute; reflexivity|exact Hin].
Defined.

Lemma job_send_eventually_enabled_witness :
  let s := after shared_seed_waiting shared_seed_boot in
  run shared_seed_waiting shared_seed_boot = Some s /\
  pool s !! 1%nat = Some (TWalk one_page "p" (W_Send ["a"] [])) /\
  dispG s = D_Loop one_page ["a"] /\
  step s (ATask 1) = None /\
  exists s',
    run (settle 0 (now s) (dispG s)) s = Some s' /\
    dispG s' = D_Recv /\
    pool s' !! 1%nat = Some (TWalk one_page "p" (W_Send ["a"] [])) /\
    step s' (ATask 1) =
    Some (set_task 1 (TWalk one_page "p" (W_Loop []))
            (with_disp (D_Loop one_page ["a"]) s')).
Proof.
  split; [vm_compute; reflexivity|]. split; [vm_compute; reflexivity|].
  split; [vm_compute; reflexivity|]. split; [vm_compute; reflexivity|].
  apply (job_send_eventually_enabled
           [seed one_page "p"; seed one_page "p"] 0 shared_seed_waiting
           (after shared_seed_waiting shared_seed_boot) 1%nat one_page "p"
           ["a"] []);
    vm_compute; reflexivity.
Defined.

Lemma extraction_alone_witness :
  let s := after thrice_launched thrice_boot in
  run thrice_launched thrice_boot = Some s /\
  pool s !! 1%nat = Some (TExt thrice "b" E_Check) /\
  sinkG s = S_Loop /\ scraped "b" (eng s) = false /\
  exists s1 s',
    run [ATask 1; ATask 1; ATask 1; ASink]%nat s = Some s1 /\
    extracted (trace s1) = ["b"] /\ callbacks (trace s1) = ["b"] /\
    scraped "b" (eng s1) = false /\
    run [ATask 1; ATask 1]%nat s1 = Some s' /\
    callbacks (trace s') = ["b"] /\
    scraped "b" (eng s') = true.
Proof.
  split; [vm_compute; reflexivity|]. split; [vm_compute; reflexivity|].
  split; [vm_compute; reflexivity|]. split; [vm_compute; reflexivity|].
  destruct (extraction_alone [seed thrice "p"] 0 thrice_launched
              (after thrice_launched thrice_boot) 1%nat thrice "b")
    as (s' & R & _ & M & _ & _ & _ & _ & _ & C & _ & _ & L);
    try (vm_compute; reflexivity).
  destruct L as (s1 & R1 & _ & X1 & C1 & _ & N1 & _ & R2);
    [vm_compute; reflexivity|].
  exists s1, s'. split; [exact R1|]. split.
  { rewrite X1. vm_compute. reflexivity. }
  split. { rewrite C1. vm_compute. reflexivity. }
  split; [exact N1|]. split; [exact R2|]. split.
  - rewrite C. vm_compute. reflexivity.
  - unfold scraped. rewrite M. vm_compute. reflexivity.
Defined.

Lemma job_in_sequence_witness :
  let s := after thrice_launched thrice_boot in
  run thrice_launched thrice_boot = Some s /\
  pool s = [TWalk thrice "p" (W_Loop [])]
           ++ job_extractions thrice ["b"; "b"; "b"] /\
  sinkG s = S_Loop /\
  exists s',
    run (job_sched thrice false 1 (scrapedUrls (eng s)) ["b"; "b"; "b"]) s
      = Some s' /\
    rev (callbacks (trace s')) = ["b"] /\
    rev (extracted (trace s')) = ["b"].
Proof.
  split; [vm_compute; reflexivity|]. split; [vm_compute; reflexivity|].
  split; [vm_compute; reflexivity|].
  destruct (job_in_sequence [seed thrice "p"] 0 thrice_launched
              (after thrice_launched thrice_boot) thrice ["b"; "b"; "b"]
              [TWalk thrice "p" (W_Loop [])])
    as (s' & R & _ & _ & _ & _ & _ & _ & _ & C & _ & X);
    try (vm_compute; reflexivity).
  exists s'. split; [exact R|]. split.
  - rewrite C. vm_compute. reflexivity.
  - rewrite X. vm_compute. reflexivity.
Defined.

Lemma crawl_one_page_witness :
  (GetUrls two_items false "p").2 = [] /\
  exists s',
    run (repeat AMain 4 ++ [ASink] ++ repeat (ATask 0%nat) 6
         ++ drain 0 2
         ++ job_sched two_items false 1 (<[("p" : string) := true]> ∅) ["a"; "b"])
      (boot (NewScraper [seed two_items "p"] 0)) = Some s' /\
    rev (callbacks (trace s')) = ["a"; "b"] /\
    wg (eng s') = 1 /\ step s' AMain = None.
Proof.
  split; [reflexivity|].
  destruct (crawl_one_page two_items "p" 0 eq_refl)
    as (s' & R & _ & _ & C & _ & _ & W & _ & B).
  exists s'. split; [exact R|]. split.
  - rewrite C. vm_compute. reflexivity.
  - split; [exact W|exact B].
Defined.

End MoreOnSites.
